(** * minigem-telemetry: ingestion pipeline and window statistics

    A shallow embedding of the telemetry ingest server
    (ingest/src/validate.ts, ingest/src/server.ts, the file-backed
    [readWindowStats] of stats.js and the SQL-backed [dbReadStats] of db.js)
    together with the properties the specification states about them.

    Modelling conventions.
    - JavaScript values are the inductive [JSVal]; an object is the list of
      its own properties in insertion order (keys distinct, as JSON.parse
      leaves them).
    - A JavaScript number is [number]: an integer [Num z], [NaN] or an
      infinity.  Fractions, rounding and overflow of IEEE doubles are outside
      the model; quotients that the code returns as doubles are exact
      rationals ([Q]).
    - A string is a Rocq [string] of bytes; [trim] and [toLowerCase] act on
      ASCII, and [length] counts bytes (equal to the UTF-16 length on ASCII).
    - Built-ins of the runtime whose result the code only consumes
      (Number on a string, Date parsing, the clock, the MaxMind reader, a
      failing database insert) are fields of the record [Runtime]. *)

From Stdlib Require Import ZArith List String Ascii Bool Lia QArith Qround.
From Stdlib Require Import Sorted Permutation.
Import ListNotations.
Open Scope string_scope.
Open Scope Z_scope.
Set Warnings "-register-all".

(** ** JavaScript values *)

Inductive number : Type :=
| Num (z : Z)
| NaN
| PosInf
| NegInf.

Inductive JSVal : Type :=
| JUndefined
| JNull
| JBool (b : bool)
| JNum (n : number)
| JStr (s : string)
| JArr (l : list JSVal)
| JObj (props : list (string * JSVal)).

(** [typeof v] *)
Definition typeof (v : JSVal) : string :=
  match v with
  | JUndefined => "undefined"
  | JNull => "object"
  | JBool _ => "boolean"
  | JNum _ => "number"
  | JStr _ => "string"
  | JArr _ => "object"
  | JObj _ => "object"
  end.

(** ToBoolean: the falsy values are undefined, null, false, 0, NaN and the
    empty string. *)
Definition truthy (v : JSVal) : bool :=
  match v with
  | JUndefined | JNull => false
  | JBool b => b
  | JNum (Num z) => negb (z =? 0)
  | JNum NaN => false
  | JNum _ => true
  | JStr s => negb (s =? "")%string
  | JArr _ | JObj _ => true
  end.

Fixpoint lookup {A : Type} (k : string) (l : list (string * A)) : option A :=
  match l with
  | [] => None
  | (k', v) :: r => if (k' =? k)%string then Some v else lookup k r
  end.

(** [v.k] and [v?.k] for the property names the server reads (none of them
    is an index or [length], so only objects have them). *)
Definition getProp (v : JSVal) (k : string) : JSVal :=
  match v with
  | JObj props => match lookup k props with Some x => x | None => JUndefined end
  | _ => JUndefined
  end.

(** [o.k = x] on the property list of an object: an existing key keeps its
    place, a new key is appended. *)
Fixpoint setProp (k : string) (x : JSVal) (props : list (string * JSVal))
  : list (string * JSVal) :=
  match props with
  | [] => [(k, x)]
  | (k', v) :: r =>
      if (k' =? k)%string then (k, x) :: r else (k', v) :: setProp k x r
  end.

(** [{ ...e }]: the own enumerable properties.  Arrays and strings spread
    to index keys, which the code below never reads; they are left out. *)
Definition spread (e : JSVal) : list (string * JSVal) :=
  match e with
  | JObj props => props
  | _ => []
  end.

Definition isFinite (n : number) : bool :=
  match n with Num _ => true | _ => false end.

(** ** Strings *)

Definition lower_ascii (c : ascii) : ascii :=
  let n := nat_of_ascii c in
  if andb (Nat.leb 65 n) (Nat.leb n 90) then ascii_of_nat (n + 32) else c.

Definition upper_ascii (c : ascii) : ascii :=
  let n := nat_of_ascii c in
  if andb (Nat.leb 97 n) (Nat.leb n 122) then ascii_of_nat (n - 32) else c.

Fixpoint map_string (f : ascii -> ascii) (s : string) : string :=
  match s with
  | EmptyString => EmptyString
  | String c r => String (f c) (map_string f r)
  end.

Definition toLowerCase : string -> string := map_string lower_ascii.
Definition toUpperCase : string -> string := map_string upper_ascii.

(** White space removed by [trim]: TAB, LF, VT, FF, CR and SPACE. *)
Definition is_space (c : ascii) : bool :=
  let n := nat_of_ascii c in
  orb (andb (Nat.leb 9 n) (Nat.leb n 13)) (Nat.eqb n 32).

Fixpoint trimStart (s : string) : string :=
  match s with
  | EmptyString => EmptyString
  | String c r => if is_space c then trimStart r else s
  end.

Fixpoint trimEnd (s : string) : string :=
  match s with
  | EmptyString => EmptyString
  | String c r =>
      match trimEnd r with
      | EmptyString => if is_space c then EmptyString else String c EmptyString
      | r' => String c r'
      end
  end.

Definition trim (s : string) : string := trimEnd (trimStart s).

(** [s.split(sep)] for a one-character separator. *)
Fixpoint split (sep : ascii) (s : string) : list string :=
  match s with
  | EmptyString => [EmptyString]
  | String c r =>
      if Ascii.eqb c sep then EmptyString :: split sep r
      else match split sep r with
           | [] => [String c EmptyString]
           | w :: ws => String c w :: ws
           end
  end.

Definition Zlength_s (s : string) : Z := Z.of_nat (String.length s).

(** ** validate.ts *)

Definition EVENTS : list string :=
  [ "lifecycle.activate"; "lifecycle.deactivate"; "extension.upgraded";
    "java.run.started"; "java.run.completed"; "java.run.error";
    "feature.webview.open"; "feature.theme.change";
    "feature.customCss.enable"; "feature.customCss.disable";
    "settings.changed"; "error.unhandled"; "telemetry.optout";
    "telemetry.optin"; "test.ping"; "install.created" ].

Definition EVENTS_has (s : string) : bool :=
  existsb (fun e => (e =? s)%string) EVENTS.

(** [[a-f0-9]] *)
Definition is_lower_hex (c : ascii) : bool :=
  let n := nat_of_ascii c in
  orb (andb (Nat.leb 48 n) (Nat.leb n 57)) (andb (Nat.leb 97 n) (Nat.leb n 102)).

Fixpoint all_chars (p : ascii -> bool) (s : string) : bool :=
  match s with
  | EmptyString => true
  | String c r => andb (p c) (all_chars p r)
  end.

(** [/^[a-f0-9]{32}$/.test(s)] *)
Definition anon_re (s : string) : bool :=
  andb (Nat.eqb (String.length s) 32) (all_chars is_lower_hex s).

(** The geography attached to a request: [{ country, region }]. *)
Record Geo : Type := { country : string; region : string }.

(** What the server takes from its runtime. *)
Record Runtime : Type := {
  StringToNumber : string -> number;     (* Number(s) on a string *)
  Date_parse : string -> option Z;       (* new Date(s).getTime(); None is NaN *)
  Date_now : Z;                          (* Date.now() *)
  geo_reader : string -> Geo;            (* lookup(ip) of geo.ts on a non-empty ip *)
  dbEnabled : bool;                      (* dbEnabled() *)
  db_insert_throws : JSVal -> Geo -> bool (* dbInsertEvent(ev, geo) rejects *)
}.

Definition typeof_is (v : JSVal) (t : string) : bool := (typeof v =? t)%string.

Definition str_too_long (v : JSVal) : bool :=
  match v with
  | JStr s => 30 <? Zlength_s s
  | _ => false
  end.

(** [if (typeof out.t === 'string') out.t = Number(out.t)] *)
Definition coerce_t (rt : Runtime) (out : list (string * JSVal))
  : list (string * JSVal) :=
  match lookup "t" out with
  | Some (JStr s) => setProp "t" (JNum (StringToNumber rt s)) out
  | _ => out
  end.

(** [if (out.t < 1e12) out.t = out.t * 1000] *)
Definition scale_t (t : Z) (out : list (string * JSVal)) : list (string * JSVal) :=
  if t <? 10 ^ 12 then setProp "t" (JNum (Num (t * 1000))) out else out.

(** [if (typeof out.k !== 'string') out.k = d] *)
Definition default_str (k d : string) (out : list (string * JSVal))
  : list (string * JSVal) :=
  match lookup k out with
  | Some (JStr _) => out
  | _ => setProp k (JStr d) out
  end.

Definition normalizeEvent (rt : Runtime) (e : JSVal) : option JSVal :=
  if negb (truthy e) then None else
  let out := spread e in
  (* Coerce timestamp to ms *)
  let out := coerce_t rt out in
  match lookup "t" out with
  | Some (JNum (Num t)) =>
      let out := scale_t t out in
      (* Defaults *)
      let out := default_str "ext" "0.0.0" out in
      let out := default_str "vscode" "0.0.0" out in
      let out := default_str "os" "unknown" out in
      (* Basic checks *)
      match lookup "anon" out with
      | Some (JStr a) =>
          if negb (anon_re a) then None else
          match lookup "evt" out with
          | Some (JStr ev) =>
              if negb (EVENTS_has ev) then None else
              if orb (str_too_long (getProp (JObj out) "ext"))
                   (orb (str_too_long (getProp (JObj out) "vscode"))
                        (str_too_long (getProp (JObj out) "os")))
              then None
              else Some (JObj out)
          | _ => None
          end
      | _ => None
      end
  | _ => None
  end.

Definition bounded_str (v : JSVal) : bool :=
  match v with
  | JStr s => negb (30 <? Zlength_s s)
  | _ => false
  end.

Definition validateEvent (e : JSVal) : bool :=
  if orb (negb (truthy e)) (negb (typeof_is (getProp e "t") "number")) then false else
  if negb (match getProp e "anon" with JStr a => anon_re a | _ => false end) then false else
  if negb (match getProp e "evt" with JStr ev => EVENTS_has ev | _ => false end) then false else
  if negb (bounded_str (getProp e "ext")) then false else
  if negb (bounded_str (getProp e "vscode")) then false else
  if negb (bounded_str (getProp e "os")) then false else
  true.

(** ** server.ts: client address and geography *)

Inductive HeaderVal : Type :=
| HStr (s : string)
| HArr (l : list string).

Record Request : Type := {
  headers : list (string * HeaderVal);   (* req.headers, keys in lower case *)
  ip : option string;                    (* req.ip, the transport-level peer *)
  body : JSVal                           (* req.body *)
}.

Definition h (req : Request) (name : string) : option string :=
  match lookup (toLowerCase name) (headers req) with
  | Some (HStr s) => Some s
  | Some (HArr l) => hd_error l
  | None => None
  end.

Definition is_digit (c : ascii) : bool :=
  let n := nat_of_ascii c in andb (Nat.leb 48 n) (Nat.leb n 57).

Definition in_range (lo hi : nat) (c : ascii) : bool :=
  let n := nat_of_ascii c in andb (Nat.leb lo n) (Nat.leb n hi).

(** [172\.(1[6-9]|2\d|3[0-1])\.] at the start of [s] *)
Definition re_172 (s : string) : bool :=
  match s with
  | String "1" (String "7" (String "2" (String "." (String a (String b (String "." _)))))) =>
      orb (andb (Ascii.eqb a "1") (in_range 54 57 b))
          (orb (andb (Ascii.eqb a "2") (is_digit b))
               (andb (Ascii.eqb a "3") (in_range 48 49 b)))
  | _ => false
  end.

(** The alternatives of the regular expression of [isPrivate] other than
    the 172 one: each is a literal prefix. *)
Definition PRIVATE_PREFIXES : list string :=
  ["10."; "127."; "192.168."; "::1"; "fc00:"; "fe80:"; "fd00:"].

Definition isPrivate (ip : option string) : bool :=
  match ip with
  | None => true
  | Some s =>
      if (s =? "")%string then true
      else orb (existsb (fun p => String.prefix p s) PRIVATE_PREFIXES) (re_172 s)
  end.

Definition nonempty (s : string) : bool := negb (s =? "")%string.

Definition parseForwardedFor (v : option string) : list string :=
  match v with
  | None => []
  | Some s =>
      if (s =? "")%string then []
      else filter nonempty (map trim (split "," s))
  end.

(** [.filter(Boolean)] on an array of strings and undefined *)
Fixpoint filter_Boolean (l : list (option string)) : list string :=
  match l with
  | [] => []
  | Some s :: r => if nonempty s then s :: filter_Boolean r else filter_Boolean r
  | None :: r => filter_Boolean r
  end.

Definition candidates (req : Request) : list string :=
  filter_Boolean
    ([ h req "cf-connecting-ip"; h req "x-client-ip"; h req "x-real-ip" ]
       ++ map Some (parseForwardedFor (h req "x-forwarded-for"))
       ++ [ ip req ]).

Definition pickClientIp (req : Request) : option string :=
  let chain := candidates req in
  match find (fun a => negb (isPrivate (Some a))) chain with
  | Some a => Some a
  | None =>
      match chain with
      | c :: _ => Some c
      | [] => ip req
      end
  end.

(** [a || b || ... || undefined] over header reads *)
Fixpoint first_truthy (l : list (option string)) : option string :=
  match l with
  | [] => None
  | Some s :: r => if nonempty s then Some s else first_truthy r
  | None :: r => first_truthy r
  end.

Definition extractGeoFromHeaders (req : Request) : option string * option string :=
  let country := first_truthy
    [ h req "cf-ipcountry"; h req "x-geo-country"; h req "x-country-code";
      h req "x-appengine-country"; h req "fastly-country-code" ] in
  let region := first_truthy
    [ h req "cf-region-code"; h req "x-geo-region"; h req "x-appengine-region";
      h req "x-region" ] in
  (option_map toUpperCase country, option_map toUpperCase region).

(** [lookup(ip)] of geo.ts *)
Definition geo_lookup (rt : Runtime) (a : option string) : Geo :=
  match a with
  | None => {| country := ""; region := "" |}
  | Some s => if nonempty s then geo_reader rt s else {| country := ""; region := "" |}
  end.

Definition resolveGeo (rt : Runtime) (req : Request) (a : option string) : Geo :=
  match extractGeoFromHeaders req with
  | (Some c, r) =>
      {| country := c; region := match r with Some x => x | None => "" end |}
  | (None, _) => geo_lookup rt a
  end.

(** ** server.ts: the POST /t handler *)

(** What one request can leave behind: rows of [telemetry_events] and the
    lines appended to the day's text log and JSON-lines file (kept as the
    arguments of [lineForEvent] and [appendJsonEvent]; a failing file append
    is swallowed by the handler and is not modelled). *)
Record Store : Type := {
  db_rows : list (JSVal * Geo);
  text_lines : list (JSVal * Geo);
  json_lines : list (JSVal * Geo)
}.

(** The answers of the handler of server.ts.  Its outer [catch] (500) is
    not reachable: nothing it calls outside the inner [try] blocks throws.
    The compiled dist/server.js differs in answering 503 before anything
    else when no database is configured, and in writing no files. *)
Inductive Reply : Type :=
| Reply400                                  (* schema_unsupported *)
| Reply200 (accepted skipped : nat).        (* { ok: true, accepted, skipped } *)

(** [typeof raw?.schema === 'string' ? raw.schema.trim().toLowerCase() : ''] *)
Definition schema_of (raw : JSVal) : string :=
  match getProp raw "schema" with
  | JStr s => toLowerCase (trim s)
  | _ => ""
  end.

(** [Array.isArray(raw?.batch) ? raw.batch : [raw]] *)
Definition batch_of (raw : JSVal) : list JSVal :=
  match getProp raw "batch" with
  | JArr l => l
  | _ => [raw]
  end.

Definition Counters : Type := (nat * nat * Store)%type.

(** One turn of the loop over [batchRaw]. *)
Definition ingest_event (rt : Runtime) (geo : Geo) (acc : Counters) (evRaw : JSVal)
  : Counters :=
  let '(accepted, skipped, st) := acc in
  match normalizeEvent rt evRaw with
  | None => (accepted, S skipped, st)
  | Some ev =>
      if negb (validateEvent ev) then (accepted, S skipped, st)
      else if andb (dbEnabled rt) (db_insert_throws rt ev geo)
      then (accepted, S skipped, st)
      else
        let rows := if dbEnabled rt then (db_rows st ++ [(ev, geo)])%list else db_rows st in
        (S accepted, skipped,
         {| db_rows := rows;
            text_lines := (text_lines st ++ [(ev, geo)])%list;
            json_lines := (json_lines st ++ [(ev, geo)])%list |})
  end.

Definition ingest_batch (rt : Runtime) (geo : Geo) (batchRaw : list JSVal) (st : Store)
  : Counters :=
  fold_left (ingest_event rt geo) batchRaw (0%nat, 0%nat, st).

Definition post_t (rt : Runtime) (req : Request) (st : Store) : Reply * Store :=
  let raw := body req in
  if negb (schema_of raw =? "jwc.v1")%string then (Reply400, st)
  else
    let a := pickClientIp req in
    let geo := resolveGeo rt req a in
    let '(accepted, skipped, st') := ingest_batch rt geo (batch_of raw) st in
    (Reply200 accepted skipped, st').

(** ** stats.js: the file-backed window statistics *)

(** Association lists with the key equality as a parameter: the plain
    objects, Maps and Sets of [readWindowStats], in insertion order. *)
Section AList.
Context {K V : Type} (keq : K -> K -> bool).

Fixpoint aget (k : K) (l : list (K * V)) : option V :=
  match l with
  | [] => None
  | (k', v) :: r => if keq k' k then Some v else aget k r
  end.

Fixpoint aset (k : K) (v : V) (l : list (K * V)) : list (K * V) :=
  match l with
  | [] => [(k, v)]
  | (k', v') :: r => if keq k' k then (k, v) :: r else (k', v') :: aset k v r
  end.
End AList.

(** [o[k] = (o[k] || 0) + 1] *)
Definition incr {K : Type} (keq : K -> K -> bool) (k : K) (o : list (K * Z))
  : list (K * Z) :=
  aset keq k (match aget keq k o with Some n => n | None => 0 end + 1) o.

Definition set_has (x : string) (s : list string) : bool :=
  existsb (fun y => (y =? x)%string) s.

Definition set_add (x : string) (s : list string) : list string :=
  if set_has x s then s else (s ++ [x])%list.

(** [a[i]++] on an array of numbers; an index that is not an element index
    (the NaN of an invalid date) leaves every element as it is. *)
Fixpoint bump (i : nat) (a : list Z) : list Z :=
  match a, i with
  | [], _ => []
  | x :: r, O => x + 1 :: r
  | x :: r, S j => x :: bump j r
  end.

Definition bump_at (i : option Z) (a : list Z) : list Z :=
  match i with
  | Some z => bump (Z.to_nat z) a
  | None => a
  end.

(** The typed sub-fields of [e.m].  [None] stands for an absent or null
    field; a field of another type than the one listed (a numeric string
    for a duration, say) is outside the model. *)
Record Meta : Type := {
  m_durationMs : option Z;
  m_waitMsTotal : option Z;
  m_exit : option Z;
  m_cumulativeBytesBucket : option string;
  m_scannerUsage : option bool;
  m_truncatedOutput : option bool;
  m_phase : option string;
  m_exceptionHash : option string
}.

(** One line of a day's JSON-lines file, as [appendJsonEvent] writes it
    for an event that passed [normalizeEvent] and [validateEvent]: [t] is a
    number and the other fields are strings. *)
Record LogEvent : Type := {
  e_t : Z;
  e_anon : string;
  e_evt : string;
  e_os : string;
  e_ext : string;
  e_vscode : string;
  e_country : string;
  e_m : option Meta
}.

Definition CONTINENT : list (string * string) :=
  [ ("US","NA"); ("CA","NA"); ("MX","NA"); ("BR","SA"); ("AR","SA"); ("CL","SA");
    ("CO","SA"); ("GB","EU"); ("DE","EU"); ("FR","EU"); ("ES","EU"); ("IT","EU");
    ("NL","EU"); ("SE","EU"); ("PL","EU"); ("IE","EU"); ("PT","EU"); ("CZ","EU");
    ("RO","EU"); ("HU","EU"); ("RU","EU"); ("UA","EU"); ("TR","AS"); ("CN","AS");
    ("JP","AS"); ("KR","AS"); ("IN","AS"); ("SG","AS"); ("HK","AS"); ("TW","AS");
    ("ID","AS"); ("PH","AS"); ("TH","AS"); ("VN","AS"); ("MY","AS"); ("PK","AS");
    ("BD","AS"); ("AU","OC"); ("NZ","OC"); ("ZA","AF"); ("NG","AF"); ("EG","AF");
    ("MA","AF"); ("KE","AF"); ("ET","AF"); ("DZ","AF"); ("GH","AF"); ("TZ","AF");
    ("CI","AF"); ("SN","AF") ].

(** [x || d] on strings *)
Definition or_str (x d : string) : string := if (x =? "")%string then d else x.

(** A [Date] holds a time value only within 8.64e15 ms of the epoch;
    outside, it is invalid and its getters return NaN ([None]). *)
Definition MAX_TIME : Z := 8640000000000000.

Definition Date_valid (v : Z) : bool := Z.abs v <=? MAX_TIME.

Definition getUTCHours (v : Z) : option Z :=
  if Date_valid v then Some ((v / 3600000) mod 24) else None.

Definition getUTCDay (v : Z) : option Z :=
  if Date_valid v then Some ((v / 86400000 + 4) mod 7) else None.

(** [let ts = e.t; if (ts && ts < 1e12) ts = ts * 1000; new Date(ts || Date.now())]
    ([e.t] is a number in a [LogEvent], so the [Date.parse] of the source is
    not reached.) *)
Definition event_time (now : Z) (e : LogEvent) : Z :=
  let ts := e_t e in
  let ts := if andb (negb (ts =? 0)) (ts <? 10 ^ 12) then ts * 1000 else ts in
  if ts =? 0 then now else ts.

Record GeoCount : Type := { hits : Z; visitors : Z }.

(** [global]: the properties [readWindowStats] creates on the global
    object of the process, each a Set of anon ids. *)
Definition Global : Type := list (string * list string).

(** The variables of [readWindowStats] that its loops update (all but
    [dailyOsSeries], which feeds only the per-OS daily series).  Keys of
    the counting objects are event names, versions and codes; a key that
    names an inherited property of [Object.prototype] would not read as
    undefined, and no name of [EVENTS] and no upper-cased country is one. *)
Record Acc : Type := {
  total : Z;
  byEvent : list (string * Z);
  byOs : list (string * Z);
  byExt : list (string * Z);
  byVscode : list (string * Z);
  hourly : list Z;
  dow : list Z;
  dayHits : list Z;
  dayUniques : list (list string);
  globalUniques : list string;
  started : Z;
  completed : Z;
  compileErr : Z;
  runtimeErr : Z;
  durations : list Z;
  waitMsSum : Z;
  interactive : Z;
  truncations : Z;
  exitCodes : list (Z * Z);
  outputBuckets : list (string * Z);
  topExceptions : list (string * Z);
  hourlyVisitors : list Z;
  byCountry : list (string * GeoCount);
  byContinent : list (string * GeoCount);
  seenHourAnon : list (option Z * list string)
}.

Definition opt_Z_eqb (a b : option Z) : bool :=
  match a, b with
  | Some x, Some y => x =? y
  | None, None => true
  | _, _ => false
  end.

Definition get_count (k : string) (o : list (string * GeoCount)) : GeoCount :=
  match aget String.eqb k o with
  | Some c => c
  | None => {| hits := 0; visitors := 0 |}
  end.

Definition meta_get {A : Type} (f : Meta -> option A) (e : LogEvent) : option A :=
  match e_m e with
  | Some m => f m
  | None => None
  end.

(** [arr[di] = f(arr[di])] for the per-day arrays *)
Fixpoint update_nth {A : Type} (i : nat) (f : A -> A) (l : list A) : list A :=
  match l, i with
  | [], _ => []
  | x :: r, O => f x :: r
  | x :: r, S j => x :: update_nth j f r
  end.

(** The per-country (or per-continent) uniqueness step:
    [global[key] = global[key] || new Set(); if (!set.has(anon)) { set.add(anon); visitors++ }] *)
Definition seen_step (key anon : string) (g : Global) : bool * Global :=
  let s := match aget String.eqb key g with Some s => s | None => [] end in
  if set_has anon s then (false, aset String.eqb key s g)
  else (true, aset String.eqb key (s ++ [anon])%list g).

Definition b2z (b : bool) : Z := if b then 1 else 0.

(** The body of [for (const e of arr)] for the file of day [di]. *)
Definition tally (now : Z) (di : nat) (st : Acc * Global) (e : LogEvent)
  : Acc * Global :=
  let '(a, g) := st in
  let evt := or_str (e_evt e) "unknown" in
  let os := or_str (e_os e) "unknown" in
  let ext := or_str (e_ext e) "0.0.0" in
  let vsc := or_str (e_vscode e) "unknown" in
  let dt := event_time now e in
  let hr := getUTCHours dt in
  let dwi := getUTCDay dt in
  let anon := e_anon e in
  let has_anon := nonempty anon in
  let ctry := toUpperCase (or_str (e_country e) "-") in
  let cont := match aget String.eqb ctry CONTINENT with
              | Some c => or_str c "UN"
              | None => "UN"
              end in
  (* unique visitors per country/continent *)
  let '(freshC, g1) := if has_anon then seen_step ("c:" ++ ctry) anon g
                       else (false, g) in
  let '(freshT, g2) := if has_anon then seen_step ("t:" ++ cont) anon g1
                       else (false, g1) in
  let cC := get_count ctry (byCountry a) in
  let cT := get_count cont (byContinent a) in
  (* hourly visitors *)
  let sh := match aget opt_Z_eqb hr (seenHourAnon a) with Some s => s | None => [] end in
  let freshH := andb has_anon (negb (set_has anon sh)) in
  let is_started := (evt =? "java.run.started")%string in
  let is_completed := (evt =? "java.run.completed")%string in
  let is_error := (evt =? "java.run.error")%string in
  let dur := match meta_get m_durationMs e with Some d => d | None => 0 end in
  let wait := match meta_get m_waitMsTotal e with Some w => w | None => 0 end in
  let exit := match meta_get m_exit e with Some x => x | None => 0 end in
  let bucket := or_str (match meta_get m_cumulativeBytesBucket e with
                        | Some b => b | None => "" end) "-" in
  let phase := or_str (match meta_get m_phase e with
                       | Some p => p | None => "" end) "runtime" in
  let ex := match meta_get m_exceptionHash e with Some x => x | None => "" end in
  ({| total := total a + 1;
      byEvent := incr String.eqb evt (byEvent a);
      byOs := incr String.eqb os (byOs a);
      byExt := incr String.eqb ext (byExt a);
      byVscode := incr String.eqb vsc (byVscode a);
      hourly := bump_at hr (hourly a);
      dow := bump_at dwi (dow a);
      dayHits := bump di (dayHits a);
      dayUniques := if has_anon then update_nth di (set_add anon) (dayUniques a)
                    else dayUniques a;
      globalUniques := if has_anon then set_add anon (globalUniques a)
                       else globalUniques a;
      started := started a + b2z is_started;
      completed := completed a + b2z is_completed;
      compileErr := compileErr a + b2z (andb is_error (phase =? "compile")%string);
      runtimeErr := runtimeErr a
                    + b2z (andb is_error (negb (phase =? "compile")%string));
      durations := if andb is_completed (0 <? dur) then (durations a ++ [dur])%list
                   else durations a;
      waitMsSum := if is_completed then waitMsSum a + wait else waitMsSum a;
      interactive := interactive a
        + b2z (andb is_completed
                 (match meta_get m_scannerUsage e with Some true => true | _ => false end));
      truncations := truncations a
        + b2z (andb is_completed
                 (match meta_get m_truncatedOutput e with Some true => true | _ => false end));
      exitCodes := if is_completed then incr Z.eqb exit (exitCodes a) else exitCodes a;
      outputBuckets := if is_completed then incr String.eqb bucket (outputBuckets a)
                       else outputBuckets a;
      topExceptions := if andb is_error (nonempty ex)
                       then incr String.eqb ex (topExceptions a)
                       else topExceptions a;
      hourlyVisitors := if freshH then bump_at hr (hourlyVisitors a)
                        else hourlyVisitors a;
      byCountry := aset String.eqb ctry
                     {| hits := hits cC + 1; visitors := visitors cC + b2z freshC |}
                     (byCountry a);
      byContinent := aset String.eqb cont
                       {| hits := hits cT + 1; visitors := visitors cT + b2z freshT |}
                       (byContinent a);
      seenHourAnon := aset opt_Z_eqb hr (if freshH then (sh ++ [anon])%list else sh)
                        (seenHourAnon a) |},
   g2).

Definition init_acc (ndays : nat) : Acc :=
  {| total := 0; byEvent := []; byOs := []; byExt := []; byVscode := [];
     hourly := repeat 0 24; dow := repeat 0 7;
     dayHits := repeat 0 ndays; dayUniques := repeat [] ndays;
     globalUniques := [];
     started := 0; completed := 0; compileErr := 0; runtimeErr := 0;
     durations := []; waitMsSum := 0; interactive := 0; truncations := 0;
     exitCodes := []; outputBuckets := []; topExceptions := [];
     hourlyVisitors := repeat 0 24; byCountry := []; byContinent := [];
     seenHourAnon := [] |}.

(** The outer loop [for (di = 0; di < days.length; di++)]; [files] holds
    what [readJsonLines] returns for each day of the window, oldest first. *)
Fixpoint scan_days (now : Z) (di : nat) (files : list (list LogEvent))
  (st : Acc * Global) : Acc * Global :=
  match files with
  | [] => st
  | arr :: rest => scan_days now (S di) rest (fold_left (tally now di) arr st)
  end.

(** [durations.sort((a, b) => a - b)] *)
Fixpoint insert_num (x : Z) (l : list Z) : list Z :=
  match l with
  | [] => [x]
  | y :: r => if x <=? y then x :: l else y :: insert_num x r
  end.

Definition sort_num (l : list Z) : list Z := fold_right insert_num [] l.

(** [percentile(sorted, p)].  The product [p / 100 * n] is exact here; the
    double product of the source has the same ceiling for p = 50 and p = 90,
    the two percentiles [readWindowStats] asks for. *)
Definition percentile (sorted : list Z) (p : Q) : Z :=
  match sorted with
  | [] => 0
  | _ =>
      let n := Z.of_nat (List.length sorted) in
      let idx := Qceiling ((p / 100) * inject_Z n) - 1 in
      nth (Z.to_nat (Z.max 0 (Z.min (n - 1) idx))) sorted 0
  end.

Definition histEdges : list Z := [0; 500; 1000; 3000; 10000; 30000; 60000; 120000].

(** [a.findIndex((x, i) => p(x, i))], with [None] for -1 *)
Fixpoint findIndex_from {A : Type} (p : A -> nat -> bool) (i : nat) (l : list A)
  : option nat :=
  match l with
  | [] => None
  | x :: r => if p x i then Some i else findIndex_from p (S i) r
  end.

Definition findIndex {A : Type} (p : A -> nat -> bool) (l : list A) : option nat :=
  findIndex_from p 0 l.

Definition hist_index (d : Z) : nat :=
  match findIndex
          (fun edge i => andb (Nat.ltb i (List.length histEdges - 1))
                           (andb (edge <=? d) (d <? nth (i + 1) histEdges 0)))
          histEdges with
  | Some i => i
  | None => (List.length histEdges - 1)%nat
  end.

Definition histogram (ds : list Z) : list Z :=
  fold_left (fun vals d => bump (hist_index d) vals) ds
            (repeat 0 (List.length histEdges)).

(** [n / d] as the code computes it, exactly. *)
Definition ratio (n d : Z) : Q := inject_Z n / inject_Z d.

Record Errors : Type := {
  compile : Z; runtime : Z; compileRate : Q; runtimeRate : Q
}.

Record DurationsOut : Type := {
  count : Z; median : Z; p90 : Z; hist_values : list Z; avgWaitMs : Q
}.

(** The object [readWindowStats] returns (without the labels, the
    per-OS daily series and the top-N tables, which are derived from the
    fields kept here). *)
Record WindowStats : Type := {
  res_total : Z;
  res_uniques : Z;
  res_daily_hits : list Z;
  res_daily_uniques : list Z;
  res_byEvent : list (string * Z);
  res_byOs : list (string * Z);
  res_byExt : list (string * Z);
  res_byVscode : list (string * Z);
  res_hourly : list Z;
  res_dow : list Z;
  res_runs : Z * Z;
  res_errors : Errors;
  res_durations : DurationsOut;
  res_exitCodes : list (Z * Z);
  res_outputBuckets : list (string * Z);
  res_interactiveRate : Q;
  res_truncationRate : Q;
  res_topExceptions : list (string * Z);
  res_byContinent : list (string * GeoCount);
  res_byCountry : list (string * GeoCount);
  res_hourlyVisitors : list Z
}.

Definition Zlen {A : Type} (l : list A) : Z := Z.of_nat (List.length l).

Definition assemble (a : Acc) : WindowStats :=
  let ds := sort_num (durations a) in
  let compRateDen := Z.max 1 (started a) in
  {| res_total := total a;
     res_uniques := Zlen (globalUniques a);
     res_daily_hits := dayHits a;
     res_daily_uniques := map Zlen (dayUniques a);
     res_byEvent := byEvent a;
     res_byOs := byOs a;
     res_byExt := byExt a;
     res_byVscode := byVscode a;
     res_hourly := hourly a;
     res_dow := dow a;
     res_runs := (started a, completed a);
     res_errors := {| compile := compileErr a; runtime := runtimeErr a;
                      compileRate := ratio (compileErr a) compRateDen;
                      runtimeRate := ratio (runtimeErr a) compRateDen |};
     res_durations := {| count := Zlen ds;
                         median := percentile ds 50;
                         p90 := percentile ds 90;
                         hist_values := histogram ds;
                         avgWaitMs := if completed a =? 0 then 0%Q
                                      else ratio (waitMsSum a) (completed a) |};
     res_exitCodes := exitCodes a;
     res_outputBuckets := outputBuckets a;
     res_interactiveRate := if completed a =? 0 then 0%Q
                            else ratio (interactive a) (completed a);
     res_truncationRate := if completed a =? 0 then 0%Q
                           else ratio (truncations a) (completed a);
     res_topExceptions := topExceptions a;
     res_byContinent := byContinent a;
     res_byCountry := byCountry a;
     res_hourlyVisitors := hourlyVisitors a |}.

(** [readWindowStats()]: the files of the window and the global object go
    in, the result and the global object as the call leaves it come out. *)
Definition readWindowStats (rt : Runtime) (files : list (list LogEvent)) (g : Global)
  : WindowStats * Global :=
  let '(a, g') := scan_days (Date_now rt) 0 files (init_acc (List.length files), g) in
  (assemble a, g').

(** ** db.js: the SQL-backed statistics *)

(** A row of [telemetry_events]; [r_t] is the timestamp in epoch
    milliseconds, a nullable column is an [option], and [r_m] is the jsonb
    column with the typed sub-fields the queries read through [m->>'..']. *)
Record Row : Type := {
  r_t : Z;
  r_anon : string;
  r_evt : string;
  r_os : option string;
  r_ext : option string;
  r_vscode : option string;
  r_country : option string;
  r_region : option string;
  r_duration_ms : option Z;
  r_wait_ms_total : option Z;
  r_exit_code : option Z;
  r_session_id : option string;
  r_out_bytes_bucket : option string;
  r_scanner_usage : option bool;
  r_truncated_output : option bool;
  r_error_phase : option string;
  r_exception_hash : option string;
  r_m : option Meta
}.



(** [where t >= $1 and t < $2] *)
Definition in_range_t (from to : Z) (r : Row) : bool :=
  andb (from <=? r_t r) (r_t r <? to).

(** [select count( * ) from telemetry_events where p] *)
Definition count_where (p : Row -> bool) (rows : list Row) : Z :=
  Zlen (filter p rows).

Fixpoint distinct (l : list string) : list string :=
  match l with
  | [] => []
  | x :: r => if set_has x r then distinct r else x :: distinct r
  end.








(** The date range of [dbReadStats(windowDays, fromS, toS)]. *)
Definition resolve_range (rt : Runtime) (fromS toS : option string) : Z * Z :=
  let all := (0, Date_now rt) in
  match fromS, toS with
  | Some f, Some t =>
      if andb (nonempty f) (nonempty t) then
        match Date_parse rt (f ++ "T00:00:00Z"), Date_parse rt (t ++ "T23:59:59Z") with
        | Some ft, Some tt_ => if ft <=? tt_ then (ft, tt_) else all
        | _, _ => all
        end
      else all
  | _, _ => all
  end.







(** The range of the older [dbReadStats(windowDays)] of src/db.ts: the
    trailing window. *)
Definition trailing_range (rt : Runtime) (windowDays : Z) : Z * Z :=
  let to := Date_now rt in
  (to - (windowDays - 1) * 86400000, to).

(** ** A sample runtime

    Used to run the model on concrete requests: [Number] on a string of
    decimal digits, and the form YYYY-MM-DDTHH:mm:ssZ of the date-time
    string format. *)

Fixpoint read_digits (n : nat) (acc : Z) (s : string) : option (Z * string) :=
  match n with
  | O => Some (acc, s)
  | S k =>
      match s with
      | String c r =>
          if is_digit c
          then read_digits k (acc * 10 + (Z.of_nat (nat_of_ascii c) - 48)) r
          else None
      | EmptyString => None
      end
  end.

Definition expect (c : ascii) (s : string) : option string :=
  match s with
  | String c' r => if Ascii.eqb c c' then Some r else None
  | EmptyString => None
  end.

Definition days_from_civil (y m d : Z) : Z :=
  let y := if m <=? 2 then y - 1 else y in
  let era := y / 400 in
  let yoe := y - era * 400 in
  let doy := (153 * (if 2 <? m then m - 3 else m + 9) + 2) / 5 + d - 1 in
  let doe := yoe * 365 + yoe / 4 - yoe / 100 + doy in
  era * 146097 + doe - 719468.

Definition days_in_month (y m : Z) : Z :=
  if m =? 2 then
    if andb (y mod 4 =? 0) (orb (negb (y mod 100 =? 0)) (y mod 400 =? 0)) then 29 else 28
  else if orb (orb (m =? 4) (m =? 6)) (orb (m =? 9) (m =? 11)) then 30 else 31.

Definition bind {A B : Type} (x : option A) (f : A -> option B) : option B :=
  match x with
  | Some a => f a
  | None => None
  end.

Definition parse_iso_utc (s : string) : option Z :=
  bind (read_digits 4 0 s) (fun '(y, s) =>
  bind (expect "-" s) (fun s =>
  bind (read_digits 2 0 s) (fun '(mo, s) =>
  bind (expect "-" s) (fun s =>
  bind (read_digits 2 0 s) (fun '(d, s) =>
  bind (expect "T" s) (fun s =>
  bind (read_digits 2 0 s) (fun '(hh, s) =>
  bind (expect ":" s) (fun s =>
  bind (read_digits 2 0 s) (fun '(mi, s) =>
  bind (expect ":" s) (fun s =>
  bind (read_digits 2 0 s) (fun '(ss, s) =>
  if andb (s =? "Z")%string
       (andb (andb (1 <=? mo) (mo <=? 12))
          (andb (andb (1 <=? d) (d <=? days_in_month y mo))
             (andb (hh <? 24) (andb (mi <? 60) (ss <? 60)))))
  then Some (((days_from_civil y mo d * 24 + hh) * 60 + mi) * 60000 + ss * 1000)
  else None))))))))))).

Definition parse_decimal (s : string) : number :=
  match read_digits (String.length s) 0 s with
  | Some (z, _) => if (s =? "")%string then NaN else Num z
  | None => NaN
  end.

Definition no_geo : Geo := {| country := ""; region := "" |}.

(** A process without a database and without a MaxMind file, at
    2023-11-14T22:13:20Z. *)
Definition sample_rt : Runtime :=
  {| StringToNumber := parse_decimal;
     Date_parse := parse_iso_utc;
     Date_now := 1700000000000;
     geo_reader := fun _ => no_geo;
     dbEnabled := false;
     db_insert_throws := fun _ _ => false |}.

(** The same process with its database configured. *)
Definition sample_db_rt : Runtime :=
  {| StringToNumber := parse_decimal;
     Date_parse := parse_iso_utc;
     Date_now := 1700000000000;
     geo_reader := fun _ => no_geo;
     dbEnabled := true;
     db_insert_throws := fun _ _ => false |}.

Definition empty_store : Store :=
  {| db_rows := []; text_lines := []; json_lines := [] |}.

(** ** Vocabulary of the statements *)

(** The anon of a raw event does not match [/^[a-f0-9]{32}$/] (or is not a
    string). *)
Definition bad_anon (e : JSVal) : bool :=
  negb (match getProp e "anon" with JStr a => anon_re a | _ => false end).

(** The loop of the handler counts [evRaw] as accepted: it normalises,
    validates, and its insert does not throw. *)
Definition accepts (rt : Runtime) (geo : Geo) (evRaw : JSVal) : bool :=
  match normalizeEvent rt evRaw with
  | Some ev =>
      andb (validateEvent ev)
           (negb (andb (dbEnabled rt) (db_insert_throws rt ev geo)))
  | None => false
  end.

(** What an accepted event leaves in the files. *)
Definition stored (rt : Runtime) (geo : Geo) (evRaw : JSVal) : list (JSVal * Geo) :=
  match normalizeEvent rt evRaw with
  | Some ev => if accepts rt geo evRaw then [(ev, geo)] else []
  | None => []
  end.

(** The store after the handler has appended the records [l]. *)
Definition append_store (rt : Runtime) (st : Store) (l : list (JSVal * Geo)) : Store :=
  {| db_rows := if dbEnabled rt then (db_rows st ++ l)%list else db_rows st;
     text_lines := (text_lines st ++ l)%list;
     json_lines := (json_lines st ++ l)%list |}.

(** The address classes as the specification words them: what the code
    treats as private, and link-local IPv4 (169.254.0.0/16). *)
Definition spec_private_address (s : string) : bool :=
  orb (isPrivate (Some s)) (String.prefix "169.254." s).

(** ** Sample inputs *)

Definition sample_anon : string := "0123456789abcdef0123456789abcdef".

Definition raw_event (anon : string) (t : JSVal) : JSVal :=
  JObj [("anon", JStr anon); ("evt", JStr "test.ping"); ("t", t)].

Definition good_event : JSVal := raw_event sample_anon (JNum (Num 1700000000)).

Definition bad_anon_event : JSVal := raw_event "NOT-AN-ID" (JNum (Num 1700000000)).

(** A well-formed anon and evt, and no timestamp. *)
Definition no_t_event : JSVal :=
  JObj [("anon", JStr sample_anon); ("evt", JStr "test.ping")].

Definition request_of (xff : string) (b : JSVal) : Request :=
  {| headers := [("x-forwarded-for", HStr xff)];
     ip := Some "127.0.0.1";
     body := b |}.

(** A batch of three events, the second with an invalid anon. *)
Definition batch3_request : Request :=
  request_of "10.0.0.5, 203.0.113.7"
    (JObj [("schema", JStr "jwc.v1");
           ("batch", JArr [good_event; bad_anon_event; good_event])]).



(** A forwarded-for chain whose first hop is link-local IPv4. *)
Definition link_local_request : Request :=
  request_of "169.254.10.1, 203.0.113.7" JNull.

(** ** Vocabulary of the statements about statistics *)

Definition sum_Z (l : list Z) : Z := fold_right Z.add 0 l.

(** The sum of the values of a counting object. *)
Definition sum_vals {K : Type} (o : list (K * Z)) : Z := sum_Z (map snd o).

(** [e.evt || 'unknown'] is [name]. *)
Definition is_evt (name : string) (e : LogEvent) : bool :=
  (or_str (e_evt e) "unknown" =? name)%string.


(** [Number(e.m?.durationMs) || 0] *)
Definition event_duration (e : LogEvent) : Z :=
  match meta_get m_durationMs e with Some d => d | None => 0 end.

(** [e.m?.phase || 'runtime'] *)
Definition event_phase (e : LogEvent) : string :=
  or_str (match meta_get m_phase e with Some p => p | None => "" end) "runtime".

Definition is_compile_error (e : LogEvent) : bool :=
  andb (is_evt "java.run.error" e) (event_phase e =? "compile")%string.

Definition is_runtime_error (e : LogEvent) : bool :=
  andb (is_evt "java.run.error" e) (negb (event_phase e =? "compile")%string).

(** The rows of the range [[from, to)]. *)
Definition window (range : Z * Z) (rows : list Row) : list Row :=
  filter (in_range_t (fst range) (snd range)) rows.




(** ** Sample stored events *)

Definition no_meta : Meta :=
  {| m_durationMs := None; m_waitMsTotal := None; m_exit := None;
     m_cumulativeBytesBucket := None; m_scannerUsage := None;
     m_truncatedOutput := None; m_phase := None; m_exceptionHash := None |}.

Definition log_event (t : Z) (evt : string) (m : option Meta) : LogEvent :=
  {| e_t := t; e_anon := sample_anon; e_evt := evt; e_os := "linux";
     e_ext := "1.0.0"; e_vscode := "1.80.0"; e_country := "US"; e_m := m |}.

Definition with_duration (d : Z) : Meta :=
  {| m_durationMs := Some d; m_waitMsTotal := None; m_exit := None;
     m_cumulativeBytesBucket := None; m_scannerUsage := None;
     m_truncatedOutput := None; m_phase := None; m_exceptionHash := None |}.

Definition with_phase (p : string) : Meta :=
  {| m_durationMs := None; m_waitMsTotal := None; m_exit := None;
     m_cumulativeBytesBucket := None; m_scannerUsage := None;
     m_truncatedOutput := None; m_phase := Some p; m_exceptionHash := None |}.


(** One visit from the United States, stored in the only file of the
    window. *)
Definition one_visit_files : list (list LogEvent) :=
  [[log_event 1700000000000 "test.ping" None]].



(** An accepted event whose timestamp, 1e17 ms, is beyond the range of
    [Date]. *)
Definition far_future_files : list (list LogEvent) :=
  [[log_event (10 ^ 17) "test.ping" None]].



(** A started run, its completion after 1500 ms and a compile error, on
    2023-11-10. *)
Definition sample_files : list (list LogEvent) :=
  [[log_event 1699600000000 "java.run.started" None];
   [log_event 1699600001500 "java.run.completed" (Some (with_duration 1500));
    log_event 1699600002000 "java.run.error" (Some (with_phase "compile"))]].


(** ** Further functions of the ingest server *)

(** [validateEnvelope(body)] of validate.ts:
    [!!body && body.schema === 'jwc.v1' && Array.isArray(body.batch)] *)
Definition validateEnvelope (b : JSVal) : bool :=
  andb (truthy b)
    (andb (match getProp b "schema" with
           | JStr s => (s =? "jwc.v1")%string
           | _ => false
           end)
          (match getProp b "batch" with
           | JArr _ => true
           | _ => false
           end)).

(** The provider headers [extractGeoFromHeaders] reads for the country, in
    the order of its [||] chain. *)
Definition COUNTRY_HEADERS : list string :=
  [ "cf-ipcountry"; "x-geo-country"; "x-country-code"; "x-appengine-country";
    "fastly-country-code" ].

(** The string is empty or starts with a character [trim] keeps. *)
Definition starts_nonspace (s : string) : bool :=
  match s with
  | EmptyString => true
  | String c _ => negb (is_space c)
  end.


(** [good_event] as [normalizeEvent] returns it. *)
Definition normalised_good_event : JSVal :=
  JObj [("anon", JStr sample_anon); ("evt", JStr "test.ping");
        ("t", JNum (Num 1700000000000)); ("ext", JStr "0.0.0");
        ("vscode", JStr "0.0.0"); ("os", JStr "unknown")].

(** ** Further functions of stats.js and db.js *)

(** [arr.sort((a, b) => key(b) - key(a))]: the stable sort by descending
    key. *)
Fixpoint insert_desc {A : Type} (key : A -> Z) (x : A) (l : list A) : list A :=
  match l with
  | [] => [x]
  | y :: r => if key y <=? key x then x :: l else y :: insert_desc key x r
  end.

Definition sort_desc {A : Type} (key : A -> Z) (l : list A) : list A :=
  fold_right (insert_desc key) [] l.

(** A row of the top-N tables: [{ key, count, pct }]. *)
Record TopRow : Type := { row_key : string; row_count : Z; row_pct : Q }.

(** [toTopRows(obj, denom, limit = 20)] of stats.js; [obj] is given by its
    entries in the order of [Object.entries]. *)
Definition toTopRows (obj : list (string * Z)) (denom : Z) (limit : nat)
  : list TopRow :=
  map (fun kc => {| row_key := fst kc;
                    row_count := snd kc;
                    row_pct := if denom =? 0 then 0%Q else ratio (snd kc) denom |})
      (firstn limit (sort_desc snd obj)).

(** The table [C] of [continentOf] in db.js. *)
Definition C_TABLE : list (string * string) :=
  [ ("US","NA"); ("CA","NA"); ("MX","NA"); ("BR","SA"); ("AR","SA");
    ("CL","SA"); ("CO","SA"); ("GB","EU"); ("DE","EU"); ("FR","EU");
    ("ES","EU"); ("IT","EU"); ("NL","EU"); ("SE","EU"); ("PL","EU");
    ("IE","EU"); ("PT","EU"); ("CZ","EU"); ("RO","EU"); ("HU","EU");
    ("RU","EU"); ("UA","EU"); ("TR","AS"); ("CN","AS"); ("JP","AS");
    ("KR","AS"); ("IN","AS"); ("SG","AS"); ("HK","AS"); ("TW","AS");
    ("ID","AS"); ("PH","AS"); ("TH","AS"); ("VN","AS"); ("MY","AS");
    ("PK","AS"); ("BD","AS"); ("AU","OC"); ("NZ","OC"); ("ZA","AF");
    ("NG","AF"); ("EG","AF"); ("MA","AF"); ("KE","AF"); ("ET","AF");
    ("DZ","AF"); ("GH","AF"); ("TZ","AF"); ("CI","AF"); ("SN","AF") ].

(** [continentOf(country)] of db.js; [None] is undefined. *)
Definition continentOf (c : option string) : string :=
  match c with
  | None => "Unknown"
  | Some s =>
      if (s =? "")%string then "Unknown"
      else match aget String.eqb (toUpperCase s) C_TABLE with
           | Some k => or_str k "Unknown"
           | None => "Unknown"
           end
  end.

(** [select key as k, count( * ) ... group by 1]: one row for each value of
    the key, in the order in which the values first appear. *)
Fixpoint group_keys {K : Type} (keq : K -> K -> bool) (seen : list K) (l : list K)
  : list K :=
  match l with
  | [] => []
  | x :: r =>
      if existsb (keq x) seen then group_keys keq seen r
      else x :: group_keys keq (x :: seen) r
  end.

(** [coalesce(country, 'Unknown')] *)
Definition row_country (r : Row) : string :=
  match r_country r with Some c => c | None => "Unknown" end.

(** [sqlCountry]: hits and distinct visitors by country over the range,
    [order by 2 desc]. *)
Definition country_rows (range : Z * Z) (rows : list Row) : list (string * GeoCount) :=
  let w := filter (in_range_t (fst range) (snd range)) rows in
  sort_desc (fun kc => hits (snd kc))
    (map (fun k =>
            let grp := filter (fun r => (row_country r =? k)%string) w in
            (k, {| hits := Zlen grp;
                   visitors := Zlen (distinct (map r_anon grp)) |}))
         (group_keys String.eqb [] (map row_country w))).

(** The loop of [dbReadStats] that folds the countries into continents,
    over the entries of [byCountry] (for country codes, the order of the
    rows). *)
Definition rollup (byCountry_ : list (string * GeoCount)) : list (string * GeoCount) :=
  fold_left
    (fun byCont kc =>
       let cont := continentOf (if (fst kc =? "Unknown")%string then None
                                else Some (fst kc)) in
       let old := get_count cont byCont in
       aset String.eqb cont
            {| hits := hits old + hits (snd kc);
               visitors := visitors old + visitors (snd kc) |}
            byCont)
    byCountry_ [].

(** [x | 0]: ToInt32 of an integer. *)
Definition to_int32 (z : Z) : Z := (z + 2 ^ 31) mod 2 ^ 32 - 2 ^ 31.

(** [a[i] = x] on an array; [None] is a hole.  An index past the end
    grows the array, a negative one names a property and leaves the elements
    alone. *)
Definition js_store (i : Z) (x : Z) (a : list (option Z)) : list (option Z) :=
  if i <? 0 then a
  else
    let n := Z.to_nat i in
    if Nat.ltb n (List.length a)
    then (firstn n a ++ Some x :: skipn (S n) a)%list
    else (a ++ repeat None (n - List.length a) ++ [Some x])%list.

(** [arr24(rows)] and [arr7(rows)] of db.js, over rows [(h, c)]. *)
Definition arr_of (size : nat) (rows : list (Z * Z)) : list (option Z) :=
  fold_left (fun a r => js_store (to_int32 (fst r)) (snd r) a) rows
            (repeat (Some 0) size).

Definition arr24 : list (Z * Z) -> list (option Z) := arr_of 24.
Definition arr7 : list (Z * Z) -> list (option Z) := arr_of 7.

(** [extract(hour from t at time zone 'utc')] and [extract(dow from ...)] *)
Definition row_hour (r : Row) : Z := (r_t r / 3600000) mod 24.
Definition row_dow (r : Row) : Z := (r_t r / 86400000 + 4) mod 7.

(** [select key, count( * )::int c ... where t >= $1 and t < $2 group by 1] *)
Definition count_by (key : Row -> Z) (range : Z * Z) (rows : list Row) : list (Z * Z) :=
  let w := filter (in_range_t (fst range) (snd range)) rows in
  map (fun k => (k, Zlen (filter (fun r => key r =? k) w)))
      (group_keys Z.eqb [] (map key w)).

(** The sum of the elements of an array, holes counting for nothing. *)
Definition sum_opt (a : list (option Z)) : Z :=
  sum_Z (map (fun x => match x with Some z => z | None => 0 end) a).

Definition sum_hits (o : list (string * GeoCount)) : Z :=
  sum_Z (map (fun kc => hits (snd kc)) o).

Definition sum_visitors (o : list (string * GeoCount)) : Z :=
  sum_Z (map (fun kc => visitors (snd kc)) o).

(** [e.m?.scannerUsage === true] on a completed run, and the same for
    [truncatedOutput]. *)
Definition is_interactive (e : LogEvent) : bool :=
  andb (is_evt "java.run.completed" e)
       (match meta_get m_scannerUsage e with Some true => true | _ => false end).

Definition is_truncated (e : LogEvent) : bool :=
  andb (is_evt "java.run.completed" e)
       (match meta_get m_truncatedOutput e with Some true => true | _ => false end).

(** [(e.country || '-').toUpperCase()] and the continent the table gives
    it. *)
Definition event_country (e : LogEvent) : string :=
  toUpperCase (or_str (e_country e) "-").

Definition event_continent (e : LogEvent) : string :=
  match aget String.eqb (event_country e) CONTINENT with
  | Some c => or_str c "UN"
  | None => "UN"
  end.

(** Hits are counted and visitors are some of them. *)
Definition count_ok (c : GeoCount) : Prop := 0 <= visitors c <= hits c.


(** The continent codes of the table, and the bucket of the unknown. *)
Definition CONTINENT_CODES : list string :=
  ["NA"; "SA"; "EU"; "AS"; "OC"; "AF"; "Unknown"].


(** The entries of [byCountry] after
    [qCountry.rows.forEach(r => { byCountry[r.k] = {...} })]: one for each
    row, but an assignment to the key [__proto__] sets the prototype of the
    object and leaves no entry. *)
Definition byCountry_entries (range : Z * Z) (rows : list Row)
  : list (string * GeoCount) :=
  filter (fun kc => negb (fst kc =? "__proto__")%string) (country_rows range rows).

(** The hours of a day and the days of a week, as SQL numbers them. *)
Definition upto (n : nat) : list Z := map Z.of_nat (seq 0 n).

(** * Properties *)

(** ** Property lists *)

Lemma lookup_setProp_same (k : string) (x : JSVal) (l : list (string * JSVal)) :
  lookup k (setProp k x l) = Some x.
Proof.
  induction l as [|[k' v] r IH]; simpl.
  - now rewrite String.eqb_refl.
  - destruct (k' =? k)%string eqn:E; simpl.
    + now rewrite String.eqb_refl.
    + now rewrite E.
Qed.

Lemma lookup_setProp_other (k k' : string) (x : JSVal) (l : list (string * JSVal)) :
  (k' =? k)%string = false -> lookup k (setProp k' x l) = lookup k l.
Proof.
  intros Hk. induction l as [|[k0 v] r IH]; simpl.
  - now rewrite Hk.
  - destruct (k0 =? k')%string eqn:E; simpl.
    + apply String.eqb_eq in E. subst k0. now rewrite Hk.
    + now rewrite IH.
Qed.

Lemma lookup_coerce_t_other (rt : Runtime) (k : string) (l : list (string * JSVal)) :
  ("t" =? k)%string = false -> lookup k (coerce_t rt l) = lookup k l.
Proof.
  intros Hk. unfold coerce_t.
  destruct (lookup "t" l) as [[]|]; try reflexivity.
  now apply lookup_setProp_other.
Qed.

Lemma lookup_scale_t_other (t : Z) (k : string) (l : list (string * JSVal)) :
  ("t" =? k)%string = false -> lookup k (scale_t t l) = lookup k l.
Proof.
  intros Hk. unfold scale_t. destruct (t <? 10 ^ 12); try reflexivity.
  now apply lookup_setProp_other.
Qed.

Lemma lookup_scale_t_same (t : Z) (l : list (string * JSVal)) :
  lookup "t" l = Some (JNum (Num t)) ->
  exists t', lookup "t" (scale_t t l) = Some (JNum (Num t')).
Proof.
  intros H. unfold scale_t. destruct (t <? 10 ^ 12).
  - eexists. apply lookup_setProp_same.
  - eauto.
Qed.

Lemma lookup_default_other (k d k' : string) (l : list (string * JSVal)) :
  (k =? k')%string = false -> lookup k' (default_str k d l) = lookup k' l.
Proof.
  intros Hk. unfold default_str.
  destruct (lookup k l) as [[]|]; try reflexivity; now apply lookup_setProp_other.
Qed.

Lemma lookup_default_same (k d : string) (l : list (string * JSVal)) :
  exists s, lookup k (default_str k d l) = Some (JStr s)
            /\ (lookup k l = Some (JStr s) \/ s = d).
Proof.
  unfold default_str.
  destruct (lookup k l) as [[| | | |s| |]|] eqn:E;
    try (exists d; split; [apply lookup_setProp_same | now right]).
  exists s. rewrite E. auto.
Qed.

Lemma getProp_spread (e : JSVal) (k : string) :
  getProp e k = match lookup k (spread e) with Some x => x | None => JUndefined end.
Proof. destruct e; reflexivity. Qed.

Lemma getProp_defined (e : JSVal) (k : string) :
  getProp e k <> JUndefined ->
  lookup k (spread e) = Some (getProp e k) /\ truthy e = true.
Proof.
  destruct e; simpl; try congruence.
  destruct (lookup k props); intuition congruence.
Qed.

(** What [normalizeEvent] has checked when it returns an object. *)
Lemma normalizeEvent_Some (rt : Runtime) (e out : JSVal) :
  normalizeEvent rt e = Some out ->
  exists a ev,
    getProp e "anon" = JStr a /\ anon_re a = true /\
    getProp e "evt" = JStr ev /\ EVENTS_has ev = true.
Proof.
  unfold normalizeEvent.
  destruct (truthy e); simpl; try discriminate.
  destruct (lookup "t" (coerce_t rt (spread e))) as [[| | |[t| | |]| | |]|];
    try discriminate.
  rewrite !lookup_default_other, !lookup_scale_t_other, !lookup_coerce_t_other
    by reflexivity.
  destruct (lookup "anon" (spread e)) as [[| | | |a| |]|] eqn:Ea; try discriminate.
  destruct (anon_re a) eqn:Hre; simpl; try discriminate.
  destruct (lookup "evt" (spread e)) as [[| | | |ev| |]|] eqn:Ee; try discriminate.
  destruct (EVENTS_has ev) eqn:Hev; simpl; try discriminate.
  intros _. exists a, ev. rewrite !getProp_spread, Ea, Ee. auto.
Qed.

Lemma bounded_after_default (k d : string) (l : list (string * JSVal)) :
  str_too_long (JStr d) = false ->
  str_too_long (match lookup k l with Some x => x | None => JUndefined end) = false ->
  exists s, lookup k (default_str k d l) = Some (JStr s)
            /\ str_too_long (JStr s) = false.
Proof.
  intros Hd Hl.
  destruct (lookup_default_same k d l) as [s [Hs [Hin | Heq]]]; exists s; split; auto.
  - now rewrite Hin in Hl.
  - now subst s.
Qed.

Lemma lookup_coerced_t (rt : Runtime) (e : JSVal) (t : Z) :
  getProp e "t" = JNum (Num t) \/
  (exists s, getProp e "t" = JStr s /\ StringToNumber rt s = Num t) ->
  lookup "t" (coerce_t rt (spread e)) = Some (JNum (Num t)).
Proof.
  intros [H | [s [H Hs]]];
    (destruct (getProp_defined e "t") as [Hl _]; [rewrite H; discriminate|]);
    rewrite H in Hl; unfold coerce_t; rewrite Hl.
  - exact Hl.
  - now rewrite lookup_setProp_same, Hs.
Qed.

(** An input with a well-formed anon, a recognised evt, a timestamp that
    is a finite number (or a string that converts to one) and no over-long
    os/ext/vscode string is normalised to a record that validateEvent
    accepts. *)
Lemma normalize_accepts (rt : Runtime) (e : JSVal) (a ev : string) (t : Z) :
  getProp e "anon" = JStr a -> anon_re a = true ->
  getProp e "evt" = JStr ev -> EVENTS_has ev = true ->
  (getProp e "t" = JNum (Num t) \/
   exists s, getProp e "t" = JStr s /\ StringToNumber rt s = Num t) ->
  str_too_long (getProp e "ext") = false ->
  str_too_long (getProp e "vscode") = false ->
  str_too_long (getProp e "os") = false ->
  exists out, normalizeEvent rt e = Some out /\ validateEvent out = true.
Proof.
  intros Ha Hre He Hev Ht Hx Hv Ho.
  destruct (getProp_defined e "anon") as [La Htr]; [rewrite Ha; discriminate|].
  destruct (getProp_defined e "evt") as [Le _]; [rewrite He; discriminate|].
  rewrite Ha in La. rewrite He in Le.
  pose proof (lookup_coerced_t rt e t Ht) as Lt.
  rewrite getProp_spread in Hx, Hv, Ho.
  unfold normalizeEvent. rewrite Htr, Lt. simpl negb. cbv iota.
  set (X := scale_t t (coerce_t rt (spread e))).
  set (out := default_str "os" "unknown"
                (default_str "vscode" "0.0.0" (default_str "ext" "0.0.0" X))).
  assert (LX : forall k, ("t" =? k)%string = false -> lookup k X = lookup k (spread e)).
  { intros k Hk. unfold X.
    now rewrite lookup_scale_t_other, lookup_coerce_t_other. }
  assert (Hta : exists t', lookup "t" out = Some (JNum (Num t'))).
  { destruct (lookup_scale_t_same t _ Lt) as [t' Ht'].
    exists t'. unfold out. now rewrite !lookup_default_other by reflexivity. }
  assert (Haa : lookup "anon" out = Some (JStr a)).
  { unfold out. rewrite !lookup_default_other by reflexivity.
    now rewrite LX. }
  assert (Hea : lookup "evt" out = Some (JStr ev)).
  { unfold out. rewrite !lookup_default_other by reflexivity.
    now rewrite LX. }
  assert (Hxa : exists s, lookup "ext" out = Some (JStr s)
                          /\ str_too_long (JStr s) = false).
  { unfold out. rewrite !lookup_default_other by reflexivity.
    apply bounded_after_default; [reflexivity|]. now rewrite LX. }
  assert (Hva : exists s, lookup "vscode" out = Some (JStr s)
                          /\ str_too_long (JStr s) = false).
  { unfold out. rewrite lookup_default_other by reflexivity.
    apply bounded_after_default; [reflexivity|].
    rewrite lookup_default_other by reflexivity. now rewrite LX. }
  assert (Hoa : exists s, lookup "os" out = Some (JStr s)
                          /\ str_too_long (JStr s) = false).
  { unfold out. apply bounded_after_default; [reflexivity|].
    rewrite !lookup_default_other by reflexivity. now rewrite LX. }
  destruct Hta as [t' Hta], Hxa as [sx [Hxa Bx]], Hva as [sv [Hva Bv]],
    Hoa as [so [Hoa Bo]].
  exists (JObj out).
  unfold validateEvent, getProp.
  rewrite Haa, Hea, Hxa, Hva, Hoa, Hta.
  simpl in Bx, Bv, Bo |- *.
  rewrite Hre, Hev, Bx, Bv, Bo. simpl. auto.
Qed.

(** A missing or malformed anon, or an evt outside the recognised set,
    makes normalizeEvent return null and validateEvent return false. *)
Lemma normalize_rejects (rt : Runtime) (e : JSVal) :
  (forall a, getProp e "anon" = JStr a -> anon_re a = false) \/
  (forall ev, getProp e "evt" = JStr ev -> EVENTS_has ev = false) ->
  normalizeEvent rt e = None /\ validateEvent e = false.
Proof.
  intros H. split.
  - destruct (normalizeEvent rt e) as [out|] eqn:E; [|reflexivity].
    destruct (normalizeEvent_Some rt e out E) as [a [ev [Ha [Hre [He Hev]]]]].
    destruct H as [H | H].
    + rewrite (H a Ha) in Hre. discriminate.
    + rewrite (H ev He) in Hev. discriminate.
  - unfold validateEvent.
    destruct (orb (negb (truthy e)) (negb (typeof_is (getProp e "t") "number")));
      [reflexivity|].
    destruct H as [H | H].
    + destruct (getProp e "anon") as [| | | |a| |]; try reflexivity.
      now rewrite (H a eq_refl).
    + destruct (match getProp e "anon" with JStr a => anon_re a | _ => false end);
        [|reflexivity].
      simpl. destruct (getProp e "evt") as [| | | |ev| |]; try reflexivity.
      now rewrite (H ev eq_refl).
Qed.

(** ** The ingest loop *)

Lemma append_store_nil (rt : Runtime) (st : Store) : append_store rt st [] = st.
Proof.
  destruct st as [d t j]. unfold append_store. simpl.
  rewrite !app_nil_r. now destruct (dbEnabled rt).
Qed.

Lemma append_store_app (rt : Runtime) (st : Store) (l1 l2 : list (JSVal * Geo)) :
  append_store rt (append_store rt st l1) l2 = append_store rt st (l1 ++ l2).
Proof.
  unfold append_store. simpl. rewrite !app_assoc.
  now destruct (dbEnabled rt).
Qed.

Lemma ingest_event_step (rt : Runtime) (geo : Geo) (a s : nat) (st : Store) (e : JSVal) :
  ingest_event rt geo (a, s, st) e =
  if accepts rt geo e
  then (S a, s, append_store rt st (stored rt geo e))
  else (a, S s, st).
Proof.
  unfold ingest_event, stored, accepts.
  destruct (normalizeEvent rt e) as [ev|]; [|reflexivity].
  destruct (validateEvent ev); simpl; [|reflexivity].
  destruct (dbEnabled rt) eqn:Hdb; simpl.
  - destruct (db_insert_throws rt ev geo); simpl; [reflexivity|].
    unfold append_store. now rewrite Hdb.
  - unfold append_store. now rewrite Hdb.
Qed.

Lemma ingest_fold (rt : Runtime) (geo : Geo) (l : list JSVal) (a s : nat) (st : Store) :
  fold_left (ingest_event rt geo) l (a, s, st) =
  ((a + List.length (filter (accepts rt geo) l))%nat,
   (s + List.length (filter (fun e => negb (accepts rt geo e)) l))%nat,
   append_store rt st (flat_map (stored rt geo) l)).
Proof.
  revert a s st. induction l as [|e l IH]; intros a s st.
  - simpl. now rewrite !Nat.add_0_r, append_store_nil.
  - cbn [fold_left filter flat_map]. rewrite ingest_event_step.
    destruct (accepts rt geo e) eqn:Hacc; cbn [negb List.length]; rewrite IH.
    + rewrite append_store_app. f_equal. f_equal; lia.
    + assert (Hs : stored rt geo e = []).
      { unfold stored. rewrite Hacc. now destruct (normalizeEvent rt e). }
      rewrite Hs. simpl app. f_equal. f_equal; lia.
Qed.

Lemma filter_split_length {A : Type} (p : A -> bool) (l : list A) :
  (List.length (filter p l) + List.length (filter (fun x => negb (p x)) l))%nat
  = List.length l.
Proof.
  induction l as [|x l IH]; simpl; [reflexivity|].
  destruct (p x); simpl; lia.
Qed.

Lemma filter_ext_in_length {A : Type} (p q : A -> bool) (l : list A) :
  (forall x, In x l -> p x = q x) ->
  List.length (filter p l) = List.length (filter q l).
Proof.
  intros H. induction l as [|x l IH]; simpl; [reflexivity|].
  rewrite (H x (or_introl eq_refl)).
  destruct (q x); simpl; rewrite IH; auto; intros y Hy; apply H; now right.
Qed.

Lemma bad_anon_not_accepted (rt : Runtime) (geo : Geo) (e : JSVal) :
  bad_anon e = true -> accepts rt geo e = false.
Proof.
  intros Hb. unfold accepts.
  destruct (normalize_rejects rt e) as [Hn _].
  - left. intros a Ha. unfold bad_anon in Hb. rewrite Ha in Hb.
    now destruct (anon_re a).
  - now rewrite Hn.
Qed.

(** ** Client address *)

Lemma find_after_prefix {A : Type} (p : A -> bool) (pre post : list A) (a : A) :
  forallb (fun x => negb (p x)) pre = true -> p a = true ->
  find p (pre ++ a :: post) = Some a.
Proof.
  intros Hpre Ha. induction pre as [|x pre IH]; simpl in *.
  - now rewrite Ha.
  - apply andb_prop in Hpre. destruct Hpre as [Hx Hpre].
    destruct (p x); [discriminate|]. auto.
Qed.

Lemma find_none_all {A : Type} (p : A -> bool) (l : list A) :
  forallb (fun x => negb (p x)) l = true -> find p l = None.
Proof.
  induction l as [|x l IH]; simpl; [reflexivity|].
  intros H. apply andb_prop in H. destruct H as [Hx Hl].
  destruct (p x); [discriminate|]. auto.
Qed.

Lemma forallb_private_neg (l : list string) :
  forallb (fun x => isPrivate (Some x)) l = true ->
  forallb (fun x => negb (negb (isPrivate (Some x)))) l = true.
Proof.
  induction l as [|x l IH]; cbn [forallb]; [reflexivity|].
  intros H. apply andb_prop in H. destruct H as [Hx Hl].
  rewrite negb_involutive, Hx. cbn [andb]. auto.
Qed.

(** ** The claims about ingestion *)




(** C4.  Once the schema is accepted, every event of the batch is handled
    on its own: the handler answers with accepted = the number of events that
    normalise, validate and insert, skipped = the number of the others (so
    accepted + skipped is the batch size), and stores exactly the accepted
    ones; an event that fails adds one to skipped and changes nothing else
    of what the rest of the batch yields; a batch of three in which exactly
    one event has an invalid anon and the other two go through yields
    accepted 2, skipped 1. *)
Theorem ingest_counts (rt : Runtime) (req : Request) (st : Store) :
  schema_of (body req) = "jwc.v1" ->
  let batch := batch_of (body req) in
  let geo := resolveGeo rt req (pickClientIp req) in
  exists accepted skipped,
    post_t rt req st =
      (Reply200 accepted skipped,
       append_store rt st (flat_map (stored rt geo) batch)) /\
    accepted = List.length (filter (accepts rt geo) batch) /\
    skipped = List.length (filter (fun e => negb (accepts rt geo e)) batch) /\
    (accepted + skipped)%nat = List.length batch /\
    (forall pre e post,
        batch = (pre ++ e :: post)%list -> accepts rt geo e = false ->
        accepted = List.length (filter (accepts rt geo) (pre ++ post)) /\
        skipped = S (List.length (filter (fun x => negb (accepts rt geo x))
                                    (pre ++ post))) /\
        flat_map (stored rt geo) batch = flat_map (stored rt geo) (pre ++ post)) /\
    (List.length batch = 3%nat ->
     List.length (filter bad_anon batch) = 1%nat ->
     (forall e, In e batch -> bad_anon e = false -> accepts rt geo e = true) ->
     accepted = 2%nat /\ skipped = 1%nat).
Proof.
  intros Hs batch geo.
  exists (List.length (filter (accepts rt geo) batch)),
         (List.length (filter (fun e => negb (accepts rt geo e)) batch)).
  split; [|split; [reflexivity|split; [reflexivity|split; [|split]]]].
  - unfold post_t. rewrite Hs. simpl negb. cbv iota.
    unfold ingest_batch. fold batch. fold geo. now rewrite ingest_fold.
  - apply filter_split_length.
  - intros pre e post Hb Hacc. rewrite Hb.
    assert (Hst : stored rt geo e = []).
    { unfold stored. rewrite Hacc. now destruct (normalizeEvent rt e). }
    rewrite !filter_app, !flat_map_app, !length_app. cbn [filter flat_map].
    rewrite Hacc, Hst. cbn [negb List.length app]. repeat split; lia.
  - intros H3 H1 Hgood.
    pose proof (filter_split_length (accepts rt geo) batch) as Hsplit.
    pose proof (filter_split_length bad_anon batch) as Hbad.
    assert (Heq : List.length (filter (accepts rt geo) batch)
                  = List.length (filter (fun e => negb (bad_anon e)) batch)).
    { apply filter_ext_in_length. intros e He.
      destruct (bad_anon e) eqn:Hb; simpl.
      - now apply bad_anon_not_accepted.
      - now apply Hgood. }
    lia.
Qed.

Lemma ingest_counts_witness :
  fst (post_t sample_rt batch3_request empty_store) = Reply200 2 1.
Proof.
  destruct (ingest_counts sample_rt batch3_request empty_store eq_refl)
    as [a [s [Hp [_ [_ [_ [_ H3]]]]]]].
  destruct H3 as [Ha Hs'].
  - reflexivity.
  - reflexivity.
  - intros e [<-|[<-|[<-|[]]]] Hb; try reflexivity; discriminate Hb.
  - rewrite Hp. simpl. now rewrite Ha, Hs'.
Defined.

(** C5 (amended).  An input whose anon is 32 lower-case hex characters,
    whose evt is a recognised name, whose t is a finite number (or a string
    that converts to one) and whose os, ext and vscode, when strings, have at
    most 30 characters is normalised to a record that validateEvent accepts;
    an input whose anon does not match, or whose evt is not recognised, makes
    normalizeEvent return null and validateEvent return false. *)
Theorem normalize_then_validate (rt : Runtime) (e : JSVal) :
  (forall a ev t,
      getProp e "anon" = JStr a -> anon_re a = true ->
      getProp e "evt" = JStr ev -> EVENTS_has ev = true ->
      (getProp e "t" = JNum (Num t) \/
       exists s, getProp e "t" = JStr s /\ StringToNumber rt s = Num t) ->
      str_too_long (getProp e "ext") = false ->
      str_too_long (getProp e "vscode") = false ->
      str_too_long (getProp e "os") = false ->
      exists out, normalizeEvent rt e = Some out /\ validateEvent out = true) /\
  ((forall a, getProp e "anon" = JStr a -> anon_re a = false) \/
   (forall ev, getProp e "evt" = JStr ev -> EVENTS_has ev = false) ->
   normalizeEvent rt e = None /\ validateEvent e = false).
Proof.
  split.
  - intros a ev t. apply normalize_accepts.
  - apply normalize_rejects.
Qed.

Lemma normalize_then_validate_witness :
  (exists out, normalizeEvent sample_rt good_event = Some out
               /\ validateEvent out = true) /\
  (normalizeEvent sample_rt bad_anon_event = None
   /\ validateEvent bad_anon_event = false).
Proof.
  split.
  - apply (proj1 (normalize_then_validate sample_rt good_event)
             sample_anon "test.ping" 1700000000); try reflexivity.
    left. reflexivity.
  - apply (proj2 (normalize_then_validate sample_rt bad_anon_event)).
    left. intros a Ha. inversion Ha. reflexivity.
Defined.

(** C5, as stated, fails: an event with a well-formed anon and a recognised
    evt, but no timestamp, is rejected by normalizeEvent. *)
Lemma normalize_needs_timestamp :
  getProp no_t_event "anon" = JStr sample_anon /\
  anon_re sample_anon = true /\
  getProp no_t_event "evt" = JStr "test.ping" /\
  EVENTS_has "test.ping" = true /\
  normalizeEvent sample_rt no_t_event = None.
Proof. repeat split. Qed.

(** C8 (amended).  pickClientIp walks cf-connecting-ip, x-client-ip,
    x-real-ip, the hops of x-forwarded-for and the peer address, empty
    entries dropped, and returns the first candidate that does not start with
    one of the prefixes the code lists (10., 127., 192.168., 172.16. to
    172.31., ::1, fc00:, fe80:, fd00:); when every candidate has such a
    prefix it returns the first candidate, or the peer address when there is
    none; for the forwarded-for chain 10.0.0.5, 203.0.113.7 it returns
    203.0.113.7. *)
Theorem pickClientIp_first_public (req : Request) :
  candidates req =
    filter_Boolean
      ([ h req "cf-connecting-ip"; h req "x-client-ip"; h req "x-real-ip" ]
         ++ map Some (parseForwardedFor (h req "x-forwarded-for"))
         ++ [ ip req ]) /\
  (forall pre a post,
      candidates req = (pre ++ a :: post)%list ->
      forallb (fun x => isPrivate (Some x)) pre = true ->
      isPrivate (Some a) = false ->
      pickClientIp req = Some a) /\
  (forallb (fun x => isPrivate (Some x)) (candidates req) = true ->
   pickClientIp req = match candidates req with
                      | c :: _ => Some c
                      | [] => ip req
                      end) /\
  (forall s, isPrivate (Some s) = true <->
             s = "" \/
             (exists p, In p PRIVATE_PREFIXES /\ String.prefix p s = true) \/
             re_172 s = true) /\
  (h req "cf-connecting-ip" = None -> h req "x-client-ip" = None ->
   h req "x-real-ip" = None ->
   h req "x-forwarded-for" = Some "10.0.0.5, 203.0.113.7" ->
   pickClientIp req = Some "203.0.113.7").
Proof.
  split; [reflexivity|]. split; [|split; [|split]].
  - intros pre a post Hc Hpre Ha. unfold pickClientIp. rewrite Hc.
    rewrite (find_after_prefix _ pre post a); auto.
    + now apply forallb_private_neg.
    + now rewrite Ha.
  - intros Hall. unfold pickClientIp.
    now rewrite (find_none_all _ _ (forallb_private_neg _ Hall)).
  - intros s. unfold isPrivate.
    destruct (s =? "")%string eqn:E.
    + apply String.eqb_eq in E. tauto.
    + apply String.eqb_neq in E. rewrite orb_true_iff, existsb_exists.
      split.
      * intros [[p Hp]|H]; [right; left; now exists p | now right; right].
      * intros [H|[[p Hp]|H]]; [contradiction | left; now exists p | now right].
  - intros H1 H2 H3 H4. unfold pickClientIp, candidates.
    rewrite H1, H2, H3, H4. reflexivity.
Qed.

Lemma pickClientIp_first_public_witness :
  pickClientIp (request_of "10.0.0.5, 203.0.113.7" JNull) = Some "203.0.113.7".
Proof.
  destruct (pickClientIp_first_public (request_of "10.0.0.5, 203.0.113.7" JNull))
    as [_ [Hfirst _]].
  apply (Hfirst ["10.0.0.5"] "203.0.113.7" ["127.0.0.1"]); reflexivity.
Defined.

(** C8, as stated, fails: with the forwarded-for chain 169.254.10.1,
    203.0.113.7 the first hop is link-local IPv4, yet it is the address
    pickClientIp returns. *)
Lemma link_local_ipv4_is_picked :
  candidates link_local_request = ["169.254.10.1"; "203.0.113.7"; "127.0.0.1"] /\
  spec_private_address "169.254.10.1" = true /\
  spec_private_address "203.0.113.7" = false /\
  pickClientIp link_local_request = Some "169.254.10.1".
Proof. repeat split. Qed.

(** ** Counting in lists and objects *)

Lemma sum_Z_app (l1 l2 : list Z) : sum_Z (l1 ++ l2) = sum_Z l1 + sum_Z l2.
Proof. induction l1 as [|x l1 IH]; simpl; [reflexivity|]. rewrite IH. lia. Qed.

Lemma sum_Z_repeat0 (n : nat) : sum_Z (repeat 0 n) = 0.
Proof. induction n; simpl; auto. Qed.

Lemma Zlen_cons {A : Type} (x : A) (l : list A) : Zlen (x :: l) = 1 + Zlen l.
Proof. unfold Zlen. simpl List.length. lia. Qed.

Lemma Zlen_app {A : Type} (l1 l2 : list A) : Zlen (l1 ++ l2) = Zlen l1 + Zlen l2.
Proof. unfold Zlen. rewrite length_app. lia. Qed.

Lemma sum_indicator {A : Type} (p : A -> bool) (l : list A) :
  sum_Z (map (fun x => b2z (p x)) l) = Zlen (filter p l).
Proof.
  induction l as [|x l IH]; simpl; [reflexivity|].
  destruct (p x); simpl b2z; rewrite IH; [rewrite Zlen_cons|]; lia.
Qed.

Lemma sum_Z_cons (x : Z) (l : list Z) : sum_Z (x :: l) = x + sum_Z l.
Proof. reflexivity. Qed.

Lemma sum_ones {A : Type} (l : list A) : sum_Z (map (fun _ => 1) l) = Zlen l.
Proof.
  induction l as [|x l IH]; [reflexivity|].
  cbn [map]. rewrite sum_Z_cons, IH, Zlen_cons. lia.
Qed.

Lemma filter_all {A : Type} (p : A -> bool) (l : list A) :
  Forall (fun x => p x = true) l -> filter p l = l.
Proof.
  induction 1 as [|x l Hx _ IH]; simpl; [reflexivity|]. now rewrite Hx, IH.
Qed.

Lemma length_bump (i : nat) (a : list Z) : List.length (bump i a) = List.length a.
Proof.
  revert i. induction a as [|x a IH]; intros [|i]; simpl; auto.
Qed.

Lemma sum_bump (i : nat) (a : list Z) :
  (i < List.length a)%nat -> sum_Z (bump i a) = sum_Z a + 1.
Proof.
  revert i. induction a as [|x a IH]; intros [|i] Hi; simpl in *; try lia.
  rewrite IH; lia.
Qed.

Lemma sum_vals_aset {K : Type} (keq : K -> K -> bool) (k : K) (x : Z)
  (o : list (K * Z)) :
  sum_vals (aset keq k x o)
  = sum_vals o + x - match aget keq k o with Some n => n | None => 0 end.
Proof.
  unfold sum_vals. induction o as [|[k' v] o IH]; simpl; [lia|].
  destruct (keq k' k); simpl; [lia|]. rewrite IH. lia.
Qed.

Lemma sum_vals_incr {K : Type} (keq : K -> K -> bool) (k : K) (o : list (K * Z)) :
  sum_vals (incr keq k o) = sum_vals o + 1.
Proof. unfold incr. rewrite sum_vals_aset. lia. Qed.

Lemma getUTCHours_range (v h : Z) : getUTCHours v = Some h -> 0 <= h < 24.
Proof.
  unfold getUTCHours. destruct (Date_valid v); [|discriminate].
  intros H. inversion H. apply Z.mod_pos_bound. lia.
Qed.

Lemma sum_bump_at_hour (v : Z) (a : list Z) :
  List.length a = 24%nat ->
  sum_Z (bump_at (getUTCHours v) a) = sum_Z a + b2z (Date_valid v).
Proof.
  intros Hlen. destruct (getUTCHours v) as [h|] eqn:E.
  - pose proof (getUTCHours_range v h E) as Hh.
    unfold getUTCHours in E. destruct (Date_valid v); [|discriminate].
    simpl. apply sum_bump. lia.
  - unfold getUTCHours in E. destruct (Date_valid v); [discriminate|].
    simpl. lia.
Qed.

Lemma length_bump_at (i : option Z) (a : list Z) :
  List.length (bump_at i a) = List.length a.
Proof. destruct i; simpl; [apply length_bump | reflexivity]. Qed.

Lemma length_insert_num (x : Z) (l : list Z) :
  List.length (insert_num x l) = S (List.length l).
Proof.
  induction l as [|y l IH]; simpl; [reflexivity|].
  destruct (x <=? y); simpl; auto.
Qed.

Lemma length_sort_num (l : list Z) : List.length (sort_num l) = List.length l.
Proof.
  induction l as [|x l IH]; simpl; [reflexivity|].
  now rewrite length_insert_num, IH.
Qed.



(** ** One event of the window *)

Ltac open_tally :=
  unfold tally;
  repeat match goal with
         | |- context [let '(_, _) := ?x in _] => destruct x
         end;
  cbn [fst].

Lemma tally_total (now : Z) (di : nat) (a : Acc) (g : Global) (e : LogEvent) :
  total (fst (tally now di (a, g) e)) = total a + 1.
Proof. open_tally. reflexivity. Qed.

Lemma tally_byEvent (now : Z) (di : nat) (a : Acc) (g : Global) (e : LogEvent) :
  byEvent (fst (tally now di (a, g) e))
  = incr String.eqb (or_str (e_evt e) "unknown") (byEvent a).
Proof. open_tally. reflexivity. Qed.

Lemma tally_hourly (now : Z) (di : nat) (a : Acc) (g : Global) (e : LogEvent) :
  hourly (fst (tally now di (a, g) e))
  = bump_at (getUTCHours (event_time now e)) (hourly a).
Proof. open_tally. reflexivity. Qed.

Lemma tally_dayHits (now : Z) (di : nat) (a : Acc) (g : Global) (e : LogEvent) :
  dayHits (fst (tally now di (a, g) e)) = bump di (dayHits a).
Proof. open_tally. reflexivity. Qed.


Lemma tally_compileErr (now : Z) (di : nat) (a : Acc) (g : Global) (e : LogEvent) :
  compileErr (fst (tally now di (a, g) e)) = compileErr a + b2z (is_compile_error e).
Proof. open_tally. reflexivity. Qed.

Lemma tally_runtimeErr (now : Z) (di : nat) (a : Acc) (g : Global) (e : LogEvent) :
  runtimeErr (fst (tally now di (a, g) e)) = runtimeErr a + b2z (is_runtime_error e).
Proof. open_tally. reflexivity. Qed.

Lemma tally_durations (now : Z) (di : nat) (a : Acc) (g : Global) (e : LogEvent) :
  durations (fst (tally now di (a, g) e))
  = if andb (is_evt "java.run.completed" e) (0 <? event_duration e)
    then (durations a ++ [event_duration e])%list
    else durations a.
Proof. open_tally. reflexivity. Qed.

(** A quantity [mu] of the accumulator that every event of day [di] moves
    by [delta e], under an invariant [Inv] of the accumulator and for the day
    indices [D], moves over the whole window by the sum of the [delta]s. *)
Section Measure.
Variable now : Z.
Variable D : nat -> Prop.
Variable Inv : Acc -> Prop.
Variable mu : Acc -> Z.
Variable delta : LogEvent -> Z.

Hypothesis Inv_step : forall di a g e,
    D di -> Inv a -> Inv (fst (tally now di (a, g) e)).
Hypothesis mu_step : forall di a g e,
    D di -> Inv a -> mu (fst (tally now di (a, g) e)) = mu a + delta e.

Lemma measure_day (di : nat) (arr : list LogEvent) (st : Acc * Global) :
  D di -> Inv (fst st) ->
  Inv (fst (fold_left (tally now di) arr st)) /\
  mu (fst (fold_left (tally now di) arr st)) = mu (fst st) + sum_Z (map delta arr).
Proof.
  intros Hd. revert st. induction arr as [|e arr IH]; intros [a g] Hinv.
  - simpl. split; [assumption | lia].
  - cbn [fold_left map]. rewrite sum_Z_cons.
    destruct (IH (tally now di (a, g) e)) as [Hi Hm].
    + destruct (tally now di (a, g) e) eqn:E.
      pose proof (Inv_step di a g e Hd Hinv) as H. now rewrite E in H.
    + split; [assumption|]. rewrite Hm, mu_step by assumption.
      cbn [fst]. lia.
Qed.

Lemma measure_scan (files : list (list LogEvent)) (di : nat) (st : Acc * Global) :
  (forall k, (di <= k < di + List.length files)%nat -> D k) ->
  Inv (fst st) ->
  Inv (fst (scan_days now di files st)) /\
  mu (fst (scan_days now di files st))
  = mu (fst st) + sum_Z (map delta (List.concat files)).
Proof.
  revert di st. induction files as [|arr files IH]; intros di st Hd Hinv.
  - simpl. split; [assumption | lia].
  - cbn [scan_days List.concat]. rewrite map_app, sum_Z_app.
    destruct (measure_day di arr st) as [Hi Hm]; [|assumption|].
    + apply Hd. simpl. lia.
    + destruct (IH (S di) (fold_left (tally now di) arr st)) as [Hi' Hm'];
        [| assumption |].
      * intros k Hk. apply Hd. simpl. lia.
      * split; [assumption | lia].
Qed.
End Measure.

Lemma tally_byEvent_sum (now : Z) (di : nat) (a : Acc) (g : Global) (e : LogEvent) :
  sum_vals (byEvent (fst (tally now di (a, g) e))) = sum_vals (byEvent a) + 1.
Proof. rewrite tally_byEvent. apply sum_vals_incr. Qed.

Lemma tally_durations_len (now : Z) (di : nat) (a : Acc) (g : Global) (e : LogEvent) :
  Zlen (durations (fst (tally now di (a, g) e)))
  = Zlen (durations a)
    + b2z (andb (is_evt "java.run.completed" e) (0 <? event_duration e)).
Proof.
  rewrite tally_durations.
  destruct (andb (is_evt "java.run.completed" e) (0 <? event_duration e)).
  - rewrite Zlen_app. reflexivity.
  - simpl. lia.
Qed.

(** ** The whole window *)

Lemma readWindowStats_fst (rt : Runtime) (files : list (list LogEvent)) (g : Global) :
  fst (readWindowStats rt files g)
  = assemble (fst (scan_days (Date_now rt) 0 files
                     (init_acc (List.length files), g))).
Proof.
  unfold readWindowStats.
  now destruct (scan_days (Date_now rt) 0 files (init_acc (List.length files), g)).
Qed.

Section Window.
Variable now : Z.
Variable files : list (list LogEvent).
Variable g : Global.

Let final : Acc :=
  fst (scan_days now 0 files (init_acc (List.length files), g)).
Let all : list LogEvent := List.concat files.

Ltac by_measure mu delta step :=
  unfold final;
  rewrite (proj2 (measure_scan now (fun _ => True) (fun _ => True) mu delta
                    (fun _ _ _ _ _ _ => I)
                    (fun di a g0 e _ _ => step now di a g0 e)
                    files 0%nat (init_acc (List.length files), g)
                    (fun _ _ => I) I));
  cbn [fst init_acc].

Lemma window_total : total final = Zlen all.
Proof.
  by_measure total (fun _ : LogEvent => 1) tally_total.
  cbn [total]. now rewrite sum_ones.
Qed.

Lemma window_byEvent : sum_vals (byEvent final) = Zlen all.
Proof.
  by_measure (fun a => sum_vals (byEvent a)) (fun _ : LogEvent => 1)
             tally_byEvent_sum.
  cbn [byEvent]. now rewrite sum_ones.
Qed.


Lemma window_compileErr : compileErr final = Zlen (filter is_compile_error all).
Proof.
  by_measure compileErr (fun e => b2z (is_compile_error e)) tally_compileErr.
  cbn [compileErr]. now rewrite sum_indicator.
Qed.

Lemma window_runtimeErr : runtimeErr final = Zlen (filter is_runtime_error all).
Proof.
  by_measure runtimeErr (fun e => b2z (is_runtime_error e)) tally_runtimeErr.
  cbn [runtimeErr]. now rewrite sum_indicator.
Qed.

Lemma window_durations :
  Zlen (durations final)
  = Zlen (filter (fun e => andb (is_evt "java.run.completed" e)
                              (0 <? event_duration e)) all).
Proof.
  by_measure (fun a => Zlen (durations a))
             (fun e => b2z (andb (is_evt "java.run.completed" e)
                              (0 <? event_duration e)))
             tally_durations_len.
  cbn [durations]. now rewrite sum_indicator.
Qed.

Lemma window_hourly :
  List.length (hourly final) = 24%nat /\
  sum_Z (hourly final)
  = Zlen (filter (fun e => Date_valid (event_time now e)) all).
Proof.
  destruct (measure_scan now (fun _ => True)
              (fun a => List.length (hourly a) = 24%nat)
              (fun a => sum_Z (hourly a))
              (fun e => b2z (Date_valid (event_time now e))))
    with (files := files) (di := 0%nat) (st := (init_acc (List.length files), g))
    as [Hlen Hsum].
  - intros di a g0 e _ Ha. now rewrite tally_hourly, length_bump_at.
  - intros di a g0 e _ Ha. rewrite tally_hourly. now apply sum_bump_at_hour.
  - intros; exact I.
  - reflexivity.
  - split; [exact Hlen|]. unfold final. rewrite Hsum.
    cbn [fst init_acc hourly]. rewrite sum_indicator. reflexivity.
Qed.

Lemma window_dayHits : sum_Z (dayHits final) = Zlen all.
Proof.
  destruct (measure_scan now (fun k => (k < List.length files)%nat)
              (fun a => List.length (dayHits a) = List.length files)
              (fun a => sum_Z (dayHits a))
              (fun _ => 1))
    with (files := files) (di := 0%nat) (st := (init_acc (List.length files), g))
    as [_ Hsum].
  - intros di a g0 e _ Ha. now rewrite tally_dayHits, length_bump.
  - intros di a g0 e Hd Ha. rewrite tally_dayHits. apply sum_bump. now rewrite Ha.
  - intros k Hk. lia.
  - cbn [fst init_acc dayHits]. apply repeat_length.
  - unfold final. rewrite Hsum. cbn [fst init_acc dayHits].
    rewrite sum_Z_repeat0, sum_ones. reflexivity.
Qed.
End Window.


Lemma Zlen_sort_num (l : list Z) : Zlen (sort_num l) = Zlen l.
Proof. unfold Zlen. now rewrite length_sort_num. Qed.

(** ** Rows of the database *)









(** ** The claims about the statistics *)

(** C1.  The code does not meet the claim: the per-country and
    per-continent "seen" sets live on the global object, so a second call of
    readWindowStats over the same stored events finds every visitor already
    seen and reports 0 visitors where the first call reported 1. *)
Theorem second_call_reports_no_visitors :
  let first := readWindowStats sample_rt one_visit_files [] in
  let second := readWindowStats sample_rt one_visit_files (snd first) in
  res_byCountry (fst first) = [("US", {| hits := 1; visitors := 1 |})] /\
  res_byCountry (fst second) = [("US", {| hits := 1; visitors := 0 |})] /\
  res_byContinent (fst first) = [("NA", {| hits := 1; visitors := 1 |})] /\
  res_byContinent (fst second) = [("NA", {| hits := 1; visitors := 0 |})] /\
  res_hourlyVisitors (fst first) = res_hourlyVisitors (fst second).
Proof. vm_compute. repeat split. Qed.




(** C10 (amended).  For stored events that the ingest validator admits,
    the total of readWindowStats is the number of events read, and equals
    the sum of the values of byEvent and the sum of daily.hits; the 24
    hourly entries sum to the number of events whose timestamp is a valid
    Date, hence to the total when every timestamp is one. *)
Theorem window_breakdowns (rt : Runtime) (files : list (list LogEvent)) (g : Global) :
  Forall (fun e => EVENTS_has (e_evt e) = true) (List.concat files) ->
  let r := fst (readWindowStats rt files g) in
  let all := List.concat files in
  res_total r = Zlen all /\
  sum_vals (res_byEvent r) = res_total r /\
  sum_Z (res_daily_hits r) = res_total r /\
  List.length (res_hourly r) = 24%nat /\
  sum_Z (res_hourly r)
  = Zlen (filter (fun e => Date_valid (event_time (Date_now rt) e)) all) /\
  (Forall (fun e => Date_valid (event_time (Date_now rt) e) = true) all ->
   sum_Z (res_hourly r) = res_total r).
Proof.
  intros _ r all. unfold r. rewrite readWindowStats_fst.
  cbn [assemble res_total res_byEvent res_daily_hits res_hourly].
  destruct (window_hourly (Date_now rt) files g) as [Hlen Hsum].
  rewrite window_total, window_byEvent, window_dayHits, Hsum.
  repeat split; try assumption.
  intros Hall. now rewrite filter_all.
Qed.

Lemma window_breakdowns_witness :
  res_total (fst (readWindowStats sample_rt sample_files [])) = 3 /\
  sum_Z (res_hourly (fst (readWindowStats sample_rt sample_files []))) = 3.
Proof.
  assert (Hev : Forall (fun e => EVENTS_has (e_evt e) = true)
                  (List.concat sample_files)).
  { repeat constructor. }
  destruct (window_breakdowns sample_rt sample_files [] Hev)
    as [Ht [_ [_ [_ [_ Hh]]]]].
  split.
  - exact Ht.
  - rewrite Hh; [exact Ht|]. repeat constructor.
Defined.

(** C10, as stated, fails: an accepted event stamped 1e17 ms is counted in
    total, byEvent and daily.hits, and in none of the 24 hourly entries. *)
Lemma far_future_event_has_no_hour :
  EVENTS_has "test.ping" = true /\
  res_total (fst (readWindowStats sample_rt far_future_files [])) = 1 /\
  sum_vals (res_byEvent (fst (readWindowStats sample_rt far_future_files []))) = 1 /\
  sum_Z (res_daily_hits (fst (readWindowStats sample_rt far_future_files []))) = 1 /\
  sum_Z (res_hourly (fst (readWindowStats sample_rt far_future_files []))) = 0.
Proof. vm_compute. repeat split. Qed.













(** * Further properties of the code *)

(** ** normalizeEvent *)



(** The record [normalizeEvent] returns, and the checks it has passed. *)
Lemma normalizeEvent_shape (rt : Runtime) (e out : JSVal) :
  normalizeEvent rt e = Some out ->
  exists t o a ev,
    lookup "t" (coerce_t rt (spread e)) = Some (JNum (Num t)) /\
    o = default_str "os" "unknown"
          (default_str "vscode" "0.0.0"
             (default_str "ext" "0.0.0" (scale_t t (coerce_t rt (spread e))))) /\
    out = JObj o /\
    lookup "anon" o = Some (JStr a) /\ anon_re a = true /\
    lookup "evt" o = Some (JStr ev) /\ EVENTS_has ev = true /\
    str_too_long (getProp (JObj o) "ext") = false /\
    str_too_long (getProp (JObj o) "vscode") = false /\
    str_too_long (getProp (JObj o) "os") = false.
Proof.
  unfold normalizeEvent.
  destruct (truthy e); simpl negb; cbv iota; try discriminate.
  destruct (lookup "t" (coerce_t rt (spread e))) as [[| | |[t| | |]| | |]|] eqn:Et;
    try discriminate.
  set (o := default_str "os" "unknown"
              (default_str "vscode" "0.0.0"
                 (default_str "ext" "0.0.0" (scale_t t (coerce_t rt (spread e)))))).
  destruct (lookup "anon" o) as [[| | | |a| |]|] eqn:Ea; try discriminate.
  destruct (anon_re a) eqn:Hre; simpl negb; cbv iota; try discriminate.
  destruct (lookup "evt" o) as [[| | | |ev| |]|] eqn:Ee; try discriminate.
  destruct (EVENTS_has ev) eqn:Hev; simpl negb; cbv iota; try discriminate.
  destruct (str_too_long (getProp (JObj o) "ext")) eqn:Hx; [discriminate|].
  destruct (str_too_long (getProp (JObj o) "vscode")) eqn:Hv; [discriminate|].
  destruct (str_too_long (getProp (JObj o) "os")) eqn:Ho; [discriminate|].
  simpl. intros H. inversion H.
  exists t, o, a, ev. repeat split; auto.
Qed.

Lemma defaulted_is_string (k d : string) (l : list (string * JSVal)) :
  exists s, lookup k (default_str k d l) = Some (JStr s).
Proof. destruct (lookup_default_same k d l) as [s [H _]]. eauto. Qed.

Lemma bounded_of_not_too_long (v : JSVal) (s : string) :
  v = JStr s -> str_too_long v = false -> bounded_str v = true.
Proof. intros -> H. simpl in *. now rewrite H. Qed.

(** X1.  Whatever normalizeEvent returns, validateEvent accepts: the
    second check of the ingest loop never rejects a normalised event. *)
Theorem normalize_output_validates (rt : Runtime) (e out : JSVal) :
  normalizeEvent rt e = Some out -> validateEvent out = true.
Proof.
  intros H.
  destruct (normalizeEvent_shape rt e out H)
    as [t [o [a [ev [Lt [Ho [-> [La [Hre [Le [Hev [Bx [Bv Bo]]]]]]]]]]]]].
  assert (Hta : exists t', lookup "t" o = Some (JNum (Num t'))).
  { destruct (lookup_scale_t_same t _ Lt) as [t' Ht'].
    exists t'. rewrite Ho. now rewrite !lookup_default_other by reflexivity. }
  assert (Hxa : exists s, lookup "ext" o = Some (JStr s)).
  { rewrite Ho. rewrite !lookup_default_other by reflexivity.
    apply defaulted_is_string. }
  assert (Hva : exists s, lookup "vscode" o = Some (JStr s)).
  { rewrite Ho. rewrite lookup_default_other by reflexivity.
    apply defaulted_is_string. }
  assert (Hoa : exists s, lookup "os" o = Some (JStr s)).
  { rewrite Ho. apply defaulted_is_string. }
  destruct Hta as [t' Hta], Hxa as [sx Hxa], Hva as [sv Hva], Hoa as [so Hoa].
  unfold validateEvent, getProp in *.
  rewrite La, Le, Hta. rewrite Hxa in Bx |- *. rewrite Hva in Bv |- *.
  rewrite Hoa in Bo |- *.
  simpl in Bx, Bv, Bo |- *. now rewrite Hre, Hev, Bx, Bv, Bo.
Qed.

Lemma normalize_good_event :
  normalizeEvent sample_rt good_event = Some normalised_good_event.
Proof. vm_compute. reflexivity. Qed.

Lemma normalize_output_validates_witness :
  validateEvent normalised_good_event = true.
Proof.
  exact (normalize_output_validates sample_rt good_event normalised_good_event
           normalize_good_event).
Defined.



Lemma lookup_default_value (k d : string) (l : list (string * JSVal)) :
  lookup k (default_str k d l)
  = Some (match lookup k l with Some (JStr s) => JStr s | _ => JStr d end).
Proof.
  unfold default_str.
  destruct (lookup k l) as [[| | | |s| |]|] eqn:E;
    rewrite ?E; try apply lookup_setProp_same; reflexivity.
Qed.

Lemma eqb_false_of_neq (a b : string) : a <> b -> (a =? b)%string = false.
Proof. intros H. now apply String.eqb_neq. Qed.

(** X3.  normalizeEvent keeps every field of the input other than t, ext,
    vscode and os as it is (unknown keys included), keeps ext, vscode and os
    when they are strings, and replaces them by "0.0.0", "0.0.0" and
    "unknown" when they are not. *)
Theorem normalize_keeps_fields (rt : Runtime) (e out : JSVal) :
  normalizeEvent rt e = Some out ->
  (forall k, k <> "t" -> k <> "ext" -> k <> "vscode" -> k <> "os" ->
             getProp out k = getProp e k) /\
  (forall k d, In (k, d) [("ext", "0.0.0"); ("vscode", "0.0.0"); ("os", "unknown")] ->
               getProp out k = match getProp e k with
                               | JStr s => JStr s
                               | _ => JStr d
                               end).
Proof.
  intros H.
  destruct (normalizeEvent_shape rt e out H)
    as [t [o [a [ev [Lt [Ho [-> _]]]]]]].
  assert (LX : forall k, k <> "t" ->
                         lookup k (scale_t t (coerce_t rt (spread e)))
                         = lookup k (spread e)).
  { intros k Hk.
    rewrite lookup_scale_t_other, lookup_coerce_t_other;
      auto using eqb_false_of_neq. }
  split.
  - intros k Kt Kx Kv Ko. cbn [getProp]. rewrite (getProp_spread e), Ho.
    rewrite !lookup_default_other by (apply eqb_false_of_neq; congruence).
    now rewrite LX.
  - intros k d Hin. cbn [getProp]. rewrite (getProp_spread e), Ho.
    destruct Hin as [E | [E | [E | []]]]; inversion E; subst k d; clear E.
    + rewrite !lookup_default_other by reflexivity.
      rewrite lookup_default_value, LX by discriminate.
      now destruct (lookup "ext" (spread e)) as [[]|].
    + rewrite lookup_default_other by reflexivity.
      rewrite lookup_default_value, lookup_default_other by reflexivity.
      rewrite LX by discriminate.
      now destruct (lookup "vscode" (spread e)) as [[]|].
    + rewrite lookup_default_value, !lookup_default_other by reflexivity.
      rewrite LX by discriminate.
      now destruct (lookup "os" (spread e)) as [[]|].
Qed.

Lemma normalize_keeps_fields_witness :
  getProp normalised_good_event "evt" = getProp good_event "evt" /\
  getProp normalised_good_event "os" = JStr "unknown".
Proof.
  destruct (normalize_keeps_fields sample_rt good_event normalised_good_event
              normalize_good_event) as [Hk Hd].
  split.
  - apply Hk; discriminate.
  - rewrite (Hd "os" "unknown"); [reflexivity | simpl; tauto].
Defined.

Lemma default_str_fixed (k d : string) (l : list (string * JSVal)) (s : string) :
  lookup k l = Some (JStr s) -> default_str k d l = l.
Proof. intros H. unfold default_str. now rewrite H. Qed.

(** X4.  normalizeEvent changes nothing in a record it has returned whose
    timestamp is in milliseconds (at least 10^12): normalising twice is
    normalising once. *)
Theorem normalize_idempotent (rt : Runtime) (e out : JSVal) (t : Z) :
  normalizeEvent rt e = Some out ->
  getProp out "t" = JNum (Num t) ->
  10 ^ 12 <= t ->
  normalizeEvent rt out = Some out.
Proof.
  intros H Ht Hge.
  destruct (normalizeEvent_shape rt e out H)
    as [t0 [o [a [ev [Lt [Ho [-> [La [Hre [Le [Hev [Bx [Bv Bo]]]]]]]]]]]]].
  assert (Lto : lookup "t" o = Some (JNum (Num t))).
  { unfold getProp in Ht. destruct (lookup "t" o); [now subst | discriminate]. }
  assert (Hxa : exists s, lookup "ext" o = Some (JStr s)).
  { rewrite Ho. rewrite !lookup_default_other by reflexivity.
    apply defaulted_is_string. }
  assert (Hva : exists s, lookup "vscode" o = Some (JStr s)).
  { rewrite Ho. rewrite lookup_default_other by reflexivity.
    apply defaulted_is_string. }
  assert (Hoa : exists s, lookup "os" o = Some (JStr s)).
  { rewrite Ho. apply defaulted_is_string. }
  destruct Hxa as [sx Hxa], Hva as [sv Hva], Hoa as [so Hoa].
  clear Ho Lt. unfold normalizeEvent.
  cbn [truthy negb spread].
  assert (Hc : coerce_t rt o = o) by (unfold coerce_t; now rewrite Lto).
  rewrite Hc, Lto.
  assert (Hs : scale_t t o = o).
  { unfold scale_t. destruct (Z.ltb_spec t (10 ^ 12)); [lia | reflexivity]. }
  rewrite Hs.
  rewrite (default_str_fixed "ext" "0.0.0" o sx Hxa).
  rewrite (default_str_fixed "vscode" "0.0.0" o sv Hva).
  rewrite (default_str_fixed "os" "unknown" o so Hoa).
  rewrite La, Hre, Le, Hev, Bx, Bv, Bo. reflexivity.
Qed.

Lemma normalize_idempotent_witness :
  normalizeEvent sample_rt normalised_good_event = Some normalised_good_event.
Proof.
  apply (normalize_idempotent sample_rt good_event normalised_good_event
           1700000000000 normalize_good_event).
  - reflexivity.
  - vm_compute. discriminate.
Defined.

(** ** The envelope *)

(** X5.  A body that validateEnvelope accepts is never rejected by POST /t,
    and the handler processes exactly the events of its batch array:
    accepted + skipped is the length of the array. *)
Theorem valid_envelope_is_processed (rt : Runtime) (req : Request) (st : Store) :
  validateEnvelope (body req) = true ->
  exists l accepted skipped st',
    getProp (body req) "batch" = JArr l /\
    post_t rt req st = (Reply200 accepted skipped, st') /\
    (accepted + skipped)%nat = List.length l.
Proof.
  unfold validateEnvelope. intros H.
  apply andb_prop in H. destruct H as [_ H].
  apply andb_prop in H. destruct H as [Hs Hb].
  destruct (getProp (body req) "schema") as [| | | |s| |] eqn:Es; try discriminate.
  apply String.eqb_eq in Hs. subst s.
  destruct (getProp (body req) "batch") as [| | | | |l|] eqn:Eb; try discriminate.
  exists l. unfold post_t, schema_of, batch_of, ingest_batch.
  rewrite Es, Eb. simpl negb. cbv iota. rewrite ingest_fold.
  do 3 eexists. split; [reflexivity|]. split; [reflexivity|].
  apply filter_split_length.
Qed.

Lemma valid_envelope_is_processed_witness :
  exists l accepted skipped st',
    getProp (body batch3_request) "batch" = JArr l /\
    post_t sample_rt batch3_request empty_store = (Reply200 accepted skipped, st') /\
    (accepted + skipped)%nat = List.length l.
Proof.
  exact (valid_envelope_is_processed sample_rt batch3_request empty_store eq_refl).
Defined.

(** ** Geography of a request *)

Lemma upper_ascii_idem (c : ascii) : upper_ascii (upper_ascii c) = upper_ascii c.
Proof. destruct c as [[] [] [] [] [] [] [] []]; reflexivity. Qed.

Lemma toUpperCase_idem (s : string) : toUpperCase (toUpperCase s) = toUpperCase s.
Proof.
  unfold toUpperCase. induction s as [|c s IH]; simpl; [reflexivity|].
  now rewrite upper_ascii_idem, IH.
Qed.

Lemma toUpperCase_nonempty (s : string) : s <> "" -> toUpperCase s <> "".
Proof. destruct s; [congruence | discriminate]. Qed.

Lemma first_truthy_found (l : list (option string)) (v : string) :
  In (Some v) l -> v <> "" ->
  exists c, first_truthy l = Some c /\ c <> "".
Proof.
  intros Hin Hv. induction l as [|x l IH]; [contradiction|].
  simpl. destruct x as [s|].
  - unfold nonempty. destruct (s =? "")%string eqn:E; simpl.
    + apply String.eqb_eq in E. subst s.
      destruct Hin as [Heq | Hin]; [inversion Heq; congruence | auto].
    + apply String.eqb_neq in E. eauto.
  - destruct Hin as [Heq | Hin]; [discriminate | auto].
Qed.

Lemma first_truthy_absent (l : list (option string)) :
  (forall x, In x l -> x = None \/ x = Some "") -> first_truthy l = None.
Proof.
  induction l as [|x l IH]; intros H; [reflexivity|].
  simpl. destruct (H x (or_introl eq_refl)) as [-> | ->]; simpl;
    apply IH; intros y Hy; apply H; now right.
Qed.

(** X6.  When one of the provider headers carrying a country is present
    and not empty, resolveGeo answers from the headers alone: the result is
    the same whatever the geo database and the client address are, its
    country is upper-case and not empty, and cf-ipcountry wins over the other
    headers.  When no such header is present the answer is the database
    lookup of the address, a region header notwithstanding. *)
Theorem geo_header_precedence (req : Request) :
  (forall name v,
      In name COUNTRY_HEADERS -> h req name = Some v -> v <> "" ->
      forall rt rt' a a',
        resolveGeo rt req a = resolveGeo rt' req a' /\
        country (resolveGeo rt req a) <> "" /\
        toUpperCase (country (resolveGeo rt req a)) = country (resolveGeo rt req a)) /\
  (forall v rt a,
      h req "cf-ipcountry" = Some v -> v <> "" ->
      country (resolveGeo rt req a) = toUpperCase v) /\
  ((forall name, In name COUNTRY_HEADERS ->
                 h req name = None \/ h req name = Some "") ->
   forall rt a, resolveGeo rt req a = geo_lookup rt a).
Proof.
  split; [|split].
  - intros name v Hin Hh Hv rt rt' a a'.
    destruct (first_truthy_found (map (h req) COUNTRY_HEADERS) v) as [c [Hc Hne]];
      [rewrite <- Hh; now apply in_map | assumption |].
    unfold resolveGeo, extractGeoFromHeaders.
    change [h req "cf-ipcountry"; h req "x-geo-country"; h req "x-country-code";
            h req "x-appengine-country"; h req "fastly-country-code"]
      with (map (h req) COUNTRY_HEADERS).
    rewrite Hc. cbn [option_map country].
    split; [reflexivity|]. split.
    + now apply toUpperCase_nonempty.
    + apply toUpperCase_idem.
  - intros v rt a Hh Hv. unfold resolveGeo, extractGeoFromHeaders.
    rewrite Hh. cbn [first_truthy]. unfold nonempty.
    apply String.eqb_neq in Hv. rewrite Hv. reflexivity.
  - intros Hnone rt a. unfold resolveGeo, extractGeoFromHeaders.
    change [h req "cf-ipcountry"; h req "x-geo-country"; h req "x-country-code";
            h req "x-appengine-country"; h req "fastly-country-code"]
      with (map (h req) COUNTRY_HEADERS).
    rewrite first_truthy_absent; [reflexivity|].
    intros x Hx. apply in_map_iff in Hx. destruct Hx as [name [<- Hin]].
    now apply Hnone.
Qed.

Lemma geo_header_precedence_witness :
  let req := {| headers := [("x-country-code", HStr "de"); ("x-region", HStr "by")];
                ip := Some "203.0.113.7"; body := JNull |} in
  resolveGeo sample_rt req (Some "203.0.113.7")
  = resolveGeo sample_db_rt req None.
Proof.
  intros req.
  apply (proj1 (geo_header_precedence req) "x-country-code" "de");
    [simpl; tauto | reflexivity | discriminate].
Defined.

(** ** Forwarded-for hops and candidates *)

Lemma trimStart_starts (s : string) : starts_nonspace (trimStart s) = true.
Proof.
  induction s as [|c s IH]; simpl; [reflexivity|].
  destruct (is_space c) eqn:E; [exact IH | simpl; now rewrite E].
Qed.

Lemma trimStart_fixed (s : string) : starts_nonspace s = true -> trimStart s = s.
Proof.
  destruct s as [|c s]; simpl; [reflexivity|].
  intros H. now destruct (is_space c).
Qed.

Lemma trimEnd_starts (s : string) :
  starts_nonspace s = true -> starts_nonspace (trimEnd s) = true.
Proof.
  destruct s as [|c s]; simpl; [reflexivity|].
  intros H. destruct (trimEnd s); simpl.
  - destruct (is_space c) eqn:E; simpl; [reflexivity | now rewrite E].
  - assumption.
Qed.

Lemma trimEnd_idem (s : string) : trimEnd (trimEnd s) = trimEnd s.
Proof.
  induction s as [|c s IH]; [reflexivity|].
  cbn [trimEnd]. destruct (trimEnd s) as [|d u] eqn:E.
  - destruct (is_space c) eqn:Ec; [reflexivity|].
    cbn [trimEnd]. now rewrite Ec.
  - cbn [trimEnd]. cbn [trimEnd] in IH. rewrite IH. reflexivity.
Qed.

Lemma trim_idem (s : string) : trim (trim s) = trim s.
Proof.
  unfold trim.
  rewrite (trimStart_fixed (trimEnd (trimStart s))).
  - apply trimEnd_idem.
  - apply trimEnd_starts, trimStart_starts.
Qed.

(** X7.  Every hop parseForwardedFor returns is a non-empty string with no
    white space at either end; an absent or empty header gives no hop. *)
Theorem forwarded_hops_are_trimmed (v : option string) :
  Forall (fun hop => hop <> "" /\ trim hop = hop) (parseForwardedFor v) /\
  parseForwardedFor None = [] /\
  parseForwardedFor (Some "") = [].
Proof.
  split; [|split; reflexivity].
  unfold parseForwardedFor. destruct v as [s|]; [|constructor].
  destruct (s =? "")%string; [constructor|].
  apply Forall_forall. intros hop Hin.
  apply filter_In in Hin. destruct Hin as [Hin Hne].
  apply in_map_iff in Hin. destruct Hin as [x [<- _]].
  split.
  - unfold nonempty in Hne. intros E. rewrite E in Hne. discriminate.
  - apply trim_idem.
Qed.

Lemma filter_Boolean_In (l : list (option string)) (a : string) :
  In a (filter_Boolean l) <-> In (Some a) l /\ a <> "".
Proof.
  induction l as [|x l IH]; simpl; [tauto|].
  destruct x as [s|].
  - unfold nonempty. destruct (s =? "")%string eqn:E; simpl.
    + apply String.eqb_eq in E. subst s. rewrite IH.
      split; [tauto|]. intros [[H|H] Hne]; [inversion H; congruence | tauto].
    + apply String.eqb_neq in E. rewrite IH.
      split.
      * intros [<-|[H Hne]]; auto.
      * intros [[H|H] Hne]; [inversion H; auto | auto].
  - rewrite IH. split; [tauto|]. intros [[H|H] Hne]; [discriminate | tauto].
Qed.

(** X8.  No candidate of pickClientIp is the empty string; the address it
    returns is one of the candidates, or the peer address when there is no
    candidate; and it returns nothing only when there is no candidate and no
    peer address. *)
Theorem pickClientIp_is_a_candidate (req : Request) :
  Forall (fun a => a <> "") (candidates req) /\
  (forall a, pickClientIp req = Some a ->
             In a (candidates req) \/ (candidates req = [] /\ ip req = Some a)) /\
  (pickClientIp req = None <-> candidates req = [] /\ ip req = None).
Proof.
  split; [|split].
  - apply Forall_forall. intros a Ha. unfold candidates in Ha.
    now apply filter_Boolean_In in Ha.
  - intros a. unfold pickClientIp.
    destruct (find _ (candidates req)) as [b|] eqn:Ef.
    + intros H. inversion H. subst b. left. now apply find_some in Ef.
    + destruct (candidates req) as [|c l].
      * intros H. right. auto.
      * intros H. inversion H. left. now left.
  - unfold pickClientIp.
    destruct (find _ (candidates req)) as [b|] eqn:Ef.
    + split; [discriminate|]. intros [Hc _]. rewrite Hc in Ef. discriminate.
    + destruct (candidates req) as [|c l].
      * tauto.
      * split; [discriminate | intros [Hc _]; discriminate].
Qed.

Lemma digit_cases (c : ascii) :
  is_digit c = true ->
  In c ["0"; "1"; "2"; "3"; "4"; "5"; "6"; "7"; "8"; "9"]%char.
Proof.
  destruct c as [[] [] [] [] [] [] [] []]; intros H; try discriminate H;
    simpl; tauto.
Qed.

(** X9.  For a two-digit second octet, isPrivate accepts an address that
    starts with 172. exactly when the octet is between 16 and 31: the
    172.16.0.0/12 block, no more and no less. *)
Theorem isPrivate_172_block (a b : ascii) (rest : string) :
  is_digit a = true -> is_digit b = true ->
  (isPrivate (Some (String "1" (String "7" (String "2" (String "."
               (String a (String b (String "." rest)))))))) = true
   <-> (16 <= 10 * (nat_of_ascii a - 48) + (nat_of_ascii b - 48) <= 31)%nat).
Proof.
  intros Ha Hb.
  apply digit_cases in Ha. apply digit_cases in Hb.
  repeat (destruct Ha as [<- | Ha]; [| try contradiction]);
    repeat (destruct Hb as [<- | Hb]; [| try contradiction]);
    vm_compute; split; intros H; try discriminate H; try reflexivity;
    try (exfalso; lia);
    repeat match goal with
           | |- _ /\ _ => split
           | |- le _ _ => repeat constructor
           end.
Qed.

Lemma isPrivate_172_block_witness :
  isPrivate (Some "172.16.0.1") = true /\ isPrivate (Some "172.32.0.1") = false.
Proof.
  split.
  - apply (proj2 (isPrivate_172_block "1" "6" "0.1" eq_refl eq_refl)).
    simpl. lia.
  - destruct (isPrivate (Some "172.32.0.1")) eqn:E; [|reflexivity].
    apply (proj1 (isPrivate_172_block "3" "2" "0.1" eq_refl eq_refl)) in E.
    simpl in E. lia.
Defined.

(** ** Histogram buckets and percentiles *)

(** X10.  hist_index puts a duration d with 0 <= d < 120000 in the one
    bucket whose edges satisfy edge(i) <= d < edge(i+1); a duration of
    120000 or more goes to the last bucket, and so does a negative one,
    which matches no interval. *)
Theorem hist_index_bounds (d : Z) :
  (hist_index d < 8)%nat /\
  (0 <= d < 120000 ->
   nth (hist_index d) histEdges 0 <= d < nth (S (hist_index d)) histEdges 0) /\
  (120000 <= d -> hist_index d = 7%nat) /\
  (d < 0 -> hist_index d = 7%nat).
Proof.
  unfold hist_index, findIndex, histEdges. simpl.
  repeat match goal with
         | |- context [?a <=? ?b] =>
             destruct (Z.leb_spec a b); try (exfalso; lia)
         | |- context [?a <? ?b] =>
             destruct (Z.ltb_spec a b); try (exfalso; lia)
         end;
    simpl; repeat split; intros; try lia.
Qed.

Lemma nth_sorted (l : list Z) (i j : nat) :
  StronglySorted Z.le l -> (i <= j < List.length l)%nat ->
  nth i l 0 <= nth j l 0.
Proof.
  intros Hs. revert i j. induction Hs as [|x l Hs IH Hx]; intros i j Hij.
  - simpl in Hij. lia.
  - destruct i as [|i], j as [|j]; simpl in *; try lia.
    + rewrite Forall_forall in Hx. apply Hx. apply nth_In. lia.
    + apply IH. lia.
Qed.

Lemma nth_last_elt (l : list Z) :
  nth (List.length l - 1) l 0 = last l 0.
Proof.
  induction l as [|x l IH]; [reflexivity|].
  destruct l as [|y l]; [reflexivity|].
  change (last (x :: y :: l) 0) with (last (y :: l) 0). rewrite <- IH.
  cbn [List.length].
  replace (S (S (List.length l)) - 1)%nat with (S (List.length l)) by lia.
  replace (S (List.length l) - 1)%nat with (List.length l) by lia.
  reflexivity.
Qed.

Lemma rank_monotone (p q : Q) (n : Z) :
  (p <= q)%Q -> 0 <= n ->
  Qceiling (p / 100 * inject_Z n) <= Qceiling (q / 100 * inject_Z n).
Proof.
  intros Hpq Hn. apply Qceiling_resp_le.
  apply Qmult_le_compat_r.
  - apply Qmult_le_compat_r; [assumption | discriminate].
  - change 0%Q with (inject_Z 0). now rewrite <- Zle_Qle.
Qed.

Lemma percentile_unfold (l : list Z) (r : Q) :
  l <> [] ->
  percentile l r
  = nth (Z.to_nat (Z.max 0 (Z.min (Zlen l - 1)
                              (Qceiling (r / 100 * inject_Z (Zlen l)) - 1))))
        l 0.
Proof. intros Hne. unfold percentile. destruct l; [congruence | reflexivity]. Qed.

Lemma Zlen_pos {A : Type} (l : list A) : l <> [] -> 1 <= Zlen l.
Proof.
  intros Hne. unfold Zlen. destruct l; [congruence | simpl List.length; lia].
Qed.

Lemma Zlen_inject_nonneg {A : Type} (l : list A) : (0 <= inject_Z (Zlen l))%Q.
Proof. change 0%Q with (inject_Z 0). rewrite <- Zle_Qle. unfold Zlen. lia. Qed.

Lemma percentile_In (l : list Z) (p : Q) : l <> [] -> In (percentile l p) l.
Proof.
  intros Hne. rewrite percentile_unfold by assumption. apply nth_In.
  pose proof (Zlen_pos l Hne). unfold Zlen in *. lia.
Qed.

Lemma percentile_monotone (l : list Z) (p q : Q) :
  StronglySorted Z.le l -> (p <= q)%Q -> percentile l p <= percentile l q.
Proof.
  intros Hs Hpq. destruct l as [|x l']; [simpl; lia|].
  rewrite !percentile_unfold by discriminate.
  assert (H1 : 1 <= Zlen (x :: l')) by (apply Zlen_pos; discriminate).
  pose proof (rank_monotone p q (Zlen (x :: l')) Hpq ltac:(lia)) as Hr.
  apply nth_sorted; [assumption|]. unfold Zlen in *. lia.
Qed.

(** X11.  percentile returns 0 on an empty sample and an element of the
    sample otherwise; a percentile of 0 or less gives the first element and
    one of 100 or more the last; on an ascending sample the result does not
    decrease when the percentile grows. *)
Theorem percentile_properties (l : list Z) (p q : Q) :
  percentile [] p = 0 /\
  (l <> [] -> In (percentile l p) l) /\
  (l <> [] -> (p <= 0)%Q -> percentile l p = nth 0 l 0) /\
  (l <> [] -> (100 <= p)%Q -> percentile l p = last l 0) /\
  (StronglySorted Z.le l -> (p <= q)%Q -> percentile l p <= percentile l q).
Proof.
  split; [reflexivity|].
  pose proof (Zlen_inject_nonneg l) as Hn0.
  split; [|split; [|split]].
  - apply percentile_In.
  - intros Hne Hp. rewrite percentile_unfold by assumption.
    assert (Hc : Qceiling (p / 100 * inject_Z (Zlen l)) <= 0).
    { apply (Z.le_trans _ (Qceiling 0%Q)); [|vm_compute; discriminate].
      apply Qceiling_resp_le.
      rewrite <- (Qmult_0_l (inject_Z (Zlen l))).
      apply Qmult_le_compat_r; [|assumption].
      apply Qle_shift_div_r; [reflexivity | now rewrite Qmult_0_l]. }
    pose proof (Zlen_pos l Hne).
    replace (Z.max 0 _) with 0 by lia. reflexivity.
  - intros Hne Hp. rewrite percentile_unfold by assumption.
    assert (Hc : Zlen l <= Qceiling (p / 100 * inject_Z (Zlen l))).
    { rewrite <- (Qceiling_Z (Zlen l)) at 1. apply Qceiling_resp_le.
      rewrite <- (Qmult_1_l (inject_Z (Zlen l))) at 1.
      apply Qmult_le_compat_r; [|assumption].
      apply Qle_shift_div_l; [reflexivity | now rewrite Qmult_1_l]. }
    pose proof (Zlen_pos l Hne).
    replace (Z.max 0 _) with (Zlen l - 1) by lia.
    rewrite <- nth_last_elt. f_equal. unfold Zlen. lia.
  - apply percentile_monotone.
Qed.

Lemma percentile_properties_witness :
  percentile [10; 20; 30; 40; 50] 50 <= percentile [10; 20; 30; 40; 50] 90.
Proof.
  apply (proj2 (proj2 (proj2 (proj2
           (percentile_properties [10; 20; 30; 40; 50] 50 90))))).
  - repeat constructor; lia.
  - discriminate.
Defined.

(** ** More of the window *)

(** A component [f] of the accumulator that each event updates by [step]
    is, after the window, the fold of [step] over all the events read. *)
Section Projection.
Variable now : Z.
Variable X : Type.
Variable f : Acc -> X.
Variable step : LogEvent -> X -> X.

Hypothesis f_step : forall di a g e,
    f (fst (tally now di (a, g) e)) = step e (f a).

Lemma project_day (di : nat) (arr : list LogEvent) (st : Acc * Global) :
  f (fst (fold_left (tally now di) arr st))
  = fold_left (fun x e => step e x) arr (f (fst st)).
Proof.
  revert st. induction arr as [|e arr IH]; intros [a g]; [reflexivity|].
  cbn [fold_left]. rewrite IH.
  destruct (tally now di (a, g) e) as [a' g'] eqn:E.
  pose proof (f_step di a g e) as H. rewrite E in H. cbn [fst] in *.
  now rewrite H.
Qed.

Lemma project_scan (files : list (list LogEvent)) (di : nat) (st : Acc * Global) :
  f (fst (scan_days now di files st))
  = fold_left (fun x e => step e x) (List.concat files) (f (fst st)).
Proof.
  revert di st. induction files as [|arr files IH]; intros di st; [reflexivity|].
  cbn [scan_days List.concat]. now rewrite IH, project_day, fold_left_app.
Qed.
End Projection.

(** A count [mu] that each event moves by [delta e] is, after the window,
    its initial value plus the sum of the [delta]s. *)
Lemma scan_measure (now : Z) (files : list (list LogEvent)) (g : Global)
  (mu : Acc -> Z) (delta : LogEvent -> Z) :
  (forall di a g0 e, mu (fst (tally now di (a, g0) e)) = mu a + delta e) ->
  mu (fst (scan_days now 0 files (init_acc (List.length files), g)))
  = mu (init_acc (List.length files)) + sum_Z (map delta (List.concat files)).
Proof.
  intros Hstep.
  exact (proj2 (measure_scan now (fun _ => True) (fun _ => True) mu delta
                  (fun _ _ _ _ _ _ => I) (fun di a g0 e _ _ => Hstep di a g0 e)
                  files 0%nat (init_acc (List.length files), g)
                  (fun _ _ => I) I)).
Qed.

Lemma insert_num_In (x y : Z) (l : list Z) :
  In y (insert_num x l) <-> y = x \/ In y l.
Proof.
  induction l as [|z l IH]; simpl; [intuition|].
  destruct (x <=? z); simpl; [intuition|]. rewrite IH. intuition.
Qed.

Lemma sort_num_In (y : Z) (l : list Z) : In y (sort_num l) <-> In y l.
Proof.
  induction l as [|x l IH]; simpl; [tauto|].
  rewrite insert_num_In, IH. intuition.
Qed.

Lemma insert_num_sorted (x : Z) (l : list Z) :
  StronglySorted Z.le l -> StronglySorted Z.le (insert_num x l).
Proof.
  induction 1 as [|y l Hs IH Hy]; simpl.
  - repeat constructor.
  - destruct (Z.leb_spec x y).
    + constructor; [now constructor|].
      constructor; [assumption|].
      rewrite Forall_forall in *. intros z Hz. specialize (Hy z Hz). lia.
    + constructor; [assumption|].
      rewrite Forall_forall in *. intros z Hz.
      apply insert_num_In in Hz. destruct Hz as [-> | Hz]; [lia | auto].
Qed.

Lemma sort_num_sorted (l : list Z) : StronglySorted Z.le (sort_num l).
Proof.
  induction l as [|x l IH]; simpl; [constructor | now apply insert_num_sorted].
Qed.

Lemma durations_positive (now : Z) (files : list (list LogEvent)) (g : Global) :
  Forall (fun d => 0 < d)
    (durations (fst (scan_days now 0 files (init_acc (List.length files), g)))).
Proof.
  rewrite (project_scan now (list Z) durations
             (fun e ds => if andb (is_evt "java.run.completed" e)
                               (0 <? event_duration e)
                          then (ds ++ [event_duration e])%list else ds)
             (tally_durations now)).
  cbn [fst init_acc durations].
  assert (H : forall es ds, Forall (fun d => 0 < d) ds ->
            Forall (fun d => 0 < d)
              (fold_left (fun x e => if andb (is_evt "java.run.completed" e)
                                          (0 <? event_duration e)
                                     then (x ++ [event_duration e])%list else x)
                 es ds)).
  { induction es as [|e es IH]; intros ds Hds; [exact Hds|].
    cbn [fold_left]. apply IH.
    destruct (andb (is_evt "java.run.completed" e) (0 <? event_duration e)) eqn:E;
      [|exact Hds].
    apply andb_prop in E. destruct E as [_ E]. apply Z.ltb_lt in E.
    apply Forall_app. split; [exact Hds | now constructor]. }
  apply H. constructor.
Qed.

(** X12.  In the result of readWindowStats the median duration is at most
    the 90th percentile; both are 0 when no duration was recorded, and both
    are recorded durations, hence greater than 0, otherwise. *)
Theorem duration_percentiles (rt : Runtime) (files : list (list LogEvent)) (g : Global) :
  let d := res_durations (fst (readWindowStats rt files g)) in
  median d <= p90 d /\
  (count d = 0 -> median d = 0 /\ p90 d = 0) /\
  (0 < count d -> 0 < median d /\ 0 < p90 d) /\
  0 <= count d.
Proof.
  intros d. unfold d. rewrite readWindowStats_fst.
  cbn [assemble res_durations median p90 count].
  set (ds := durations (fst (scan_days (Date_now rt) 0 files
                               (init_acc (List.length files), g)))).
  assert (Hpos : Forall (fun x => 0 < x) (sort_num ds)).
  { apply Forall_forall. intros x Hx. apply (proj1 (sort_num_In x ds)) in Hx.
    pose proof (durations_positive (Date_now rt) files g) as H.
    rewrite Forall_forall in H. apply H. exact Hx. }
  split; [|split; [|split]].
  - apply percentile_monotone; [apply sort_num_sorted | discriminate].
  - intros H0. destruct (sort_num ds) as [|x l]; [auto|].
    rewrite Zlen_cons in H0. unfold Zlen in H0. lia.
  - intros Hc. assert (Hne : sort_num ds <> []).
    { intros E. rewrite E in Hc. unfold Zlen in Hc. simpl in Hc. lia. }
    rewrite Forall_forall in Hpos.
    split; apply Hpos; now apply percentile_In.
  - unfold Zlen. lia.
Qed.

Lemma tally_completed (now : Z) (di : nat) (a : Acc) (g : Global) (e : LogEvent) :
  completed (fst (tally now di (a, g) e))
  = completed a + b2z (is_evt "java.run.completed" e).
Proof. open_tally. reflexivity. Qed.

Lemma tally_exitCodes_sum (now : Z) (di : nat) (a : Acc) (g : Global) (e : LogEvent) :
  sum_vals (exitCodes (fst (tally now di (a, g) e)))
  = sum_vals (exitCodes a) + b2z (is_evt "java.run.completed" e).
Proof.
  open_tally. cbn [exitCodes]. unfold is_evt.
  destruct (or_str (e_evt e) "unknown" =? "java.run.completed")%string.
  - rewrite sum_vals_incr. reflexivity.
  - simpl. lia.
Qed.

Lemma tally_interactive (now : Z) (di : nat) (a : Acc) (g : Global) (e : LogEvent) :
  interactive (fst (tally now di (a, g) e)) = interactive a + b2z (is_interactive e).
Proof. open_tally. reflexivity. Qed.

Lemma tally_truncations (now : Z) (di : nat) (a : Acc) (g : Global) (e : LogEvent) :
  truncations (fst (tally now di (a, g) e)) = truncations a + b2z (is_truncated e).
Proof. open_tally. reflexivity. Qed.

Lemma Zlen_nonneg {A : Type} (l : list A) : 0 <= Zlen l.
Proof. unfold Zlen. lia. Qed.


Lemma Zlen_filter_mono {A : Type} (p q : A -> bool) (l : list A) :
  (forall x, p x = true -> q x = true) ->
  Zlen (filter p l) <= Zlen (filter q l).
Proof.
  intros H. induction l as [|x l IH]; simpl; [lia|].
  destruct (p x) eqn:E.
  - rewrite (H x E), !Zlen_cons. lia.
  - destruct (q x); rewrite ?Zlen_cons; lia.
Qed.

Lemma Zlen_filter_split {A : Type} (p q r : A -> bool) (l : list A) :
  (forall x, b2z (p x) + b2z (q x) = b2z (r x)) ->
  Zlen (filter p l) + Zlen (filter q l) = Zlen (filter r l).
Proof.
  intros H. rewrite <- !sum_indicator.
  induction l as [|x l IH]; [reflexivity|].
  cbn [map]. rewrite !sum_Z_cons. specialize (H x). lia.
Qed.

Lemma ratio_unit (n d : Z) : 0 <= n <= d -> 0 < d -> (0 <= ratio n d <= 1)%Q.
Proof.
  intros Hn Hd. unfold ratio.
  assert (Hd' : (0 < inject_Z d)%Q).
  { change 0%Q with (inject_Z 0). now rewrite <- Zlt_Qlt. }
  split.
  - apply Qle_shift_div_l; [assumption|]. rewrite Qmult_0_l.
    change 0%Q with (inject_Z 0). rewrite <- Zle_Qle. lia.
  - apply Qle_shift_div_r; [assumption|]. rewrite Qmult_1_l.
    rewrite <- Zle_Qle. lia.
Qed.

(** X13.  In the result of readWindowStats the compile and runtime errors
    add up to the number of run-error events read; the exit-code counts add
    up to the number of completed runs; the duration count is at most that
    number; and the interactive and truncation rates lie between 0 and 1. *)
Theorem run_counts (rt : Runtime) (files : list (list LogEvent)) (g : Global) :
  let r := fst (readWindowStats rt files g) in
  let all := List.concat files in
  compile (res_errors r) + runtime (res_errors r)
  = Zlen (filter (is_evt "java.run.error") all) /\
  snd (res_runs r) = Zlen (filter (is_evt "java.run.completed") all) /\
  sum_vals (res_exitCodes r) = snd (res_runs r) /\
  count (res_durations r) <= snd (res_runs r) /\
  (0 <= res_interactiveRate r <= 1)%Q /\
  (0 <= res_truncationRate r <= 1)%Q.
Proof.
  intros r all. unfold r. rewrite readWindowStats_fst.
  cbn [assemble res_errors res_runs res_exitCodes res_durations
         res_interactiveRate res_truncationRate compile runtime count snd].
  set (now := Date_now rt).
  rewrite window_compileErr, window_runtimeErr, Zlen_sort_num, window_durations.
  rewrite (scan_measure now files g completed _ (tally_completed now)).
  rewrite (scan_measure now files g (fun a => sum_vals (exitCodes a)) _
             (tally_exitCodes_sum now)).
  rewrite (scan_measure now files g interactive _ (tally_interactive now)).
  rewrite (scan_measure now files g truncations _ (tally_truncations now)).
  cbn [init_acc completed exitCodes interactive truncations].
  rewrite !sum_indicator. fold all.
  change (sum_vals (@nil (Z * Z))) with 0. rewrite !Z.add_0_l.
  assert (Hrate : forall p : LogEvent -> bool,
             (forall x, p x = true -> is_evt "java.run.completed" x = true) ->
             (0 <= (if Zlen (filter (is_evt "java.run.completed") all) =? 0
                    then 0
                    else ratio (Zlen (filter p all))
                           (Zlen (filter (is_evt "java.run.completed") all)))
              <= 1)%Q).
  { intros p Hp.
    pose proof (Zlen_filter_mono p (is_evt "java.run.completed") all Hp).
    pose proof (Zlen_nonneg (filter p all)).
    destruct (Zlen (filter (is_evt "java.run.completed") all) =? 0) eqn:E.
    - split; discriminate.
    - apply Z.eqb_neq in E. apply ratio_unit; lia. }
  repeat split.
  - apply Zlen_filter_split. intros x. unfold is_compile_error, is_runtime_error.
    destruct (is_evt "java.run.error" x); [|reflexivity].
    now destruct (event_phase x =? "compile")%string.
  - apply Zlen_filter_mono. intros x Hx. now apply andb_prop in Hx.
  - apply (Hrate is_interactive). intros x Hx. now apply andb_prop in Hx.
  - apply (Hrate is_interactive). intros x Hx. now apply andb_prop in Hx.
  - apply (Hrate is_truncated). intros x Hx. now apply andb_prop in Hx.
  - apply (Hrate is_truncated). intros x Hx. now apply andb_prop in Hx.
Qed.

(** ** Countries, continents and visitors *)

Lemma sum_hits_aset (k : string) (c : GeoCount) (o : list (string * GeoCount)) :
  sum_hits (aset String.eqb k c o) = sum_hits o + hits c - hits (get_count k o).
Proof.
  unfold sum_hits, get_count. induction o as [|[k' v] o IH]; simpl; [lia|].
  destruct (k' =? k)%string; simpl; [lia|]. rewrite IH. lia.
Qed.

Lemma Forall_aset (Q : GeoCount -> Prop) (k : string) (c : GeoCount)
  (o : list (string * GeoCount)) :
  Forall (fun kc => Q (snd kc)) o -> Q c ->
  Forall (fun kc => Q (snd kc)) (aset String.eqb k c o).
Proof.
  intros Ho Hc. induction Ho as [|[k' v] o Hv Ho IH]; simpl.
  - now repeat constructor.
  - destruct (k' =? k)%string; constructor; auto.
Qed.

Lemma get_count_ok (k : string) (o : list (string * GeoCount)) :
  Forall (fun kc => count_ok (snd kc)) o -> count_ok (get_count k o).
Proof.
  intros Ho. unfold get_count.
  induction Ho as [|[k' v] o Hv Ho IH]; simpl.
  - unfold count_ok. simpl. lia.
  - destruct (k' =? k)%string; auto.
Qed.

Lemma tally_byCountry (now : Z) (di : nat) (a : Acc) (g : Global) (e : LogEvent) :
  exists fresh : bool,
    byCountry (fst (tally now di (a, g) e))
    = aset String.eqb (event_country e)
        {| hits := hits (get_count (event_country e) (byCountry a)) + 1;
           visitors := visitors (get_count (event_country e) (byCountry a))
                       + b2z fresh |}
        (byCountry a).
Proof.
  unfold tally.
  destruct (if nonempty (e_anon e) then _ else _) as [freshC g1].
  destruct (if nonempty (e_anon e) then _ else _) as [freshT g2].
  exists freshC. reflexivity.
Qed.

Lemma tally_byContinent (now : Z) (di : nat) (a : Acc) (g : Global) (e : LogEvent) :
  exists fresh : bool,
    byContinent (fst (tally now di (a, g) e))
    = aset String.eqb (event_continent e)
        {| hits := hits (get_count (event_continent e) (byContinent a)) + 1;
           visitors := visitors (get_count (event_continent e) (byContinent a))
                       + b2z fresh |}
        (byContinent a).
Proof.
  unfold tally.
  destruct (if nonempty (e_anon e) then _ else _) as [freshC g1].
  destruct (if nonempty (e_anon e) then _ else _) as [freshT g2].
  exists freshT. reflexivity.
Qed.

Lemma bumped_count_ok (c : GeoCount) (fresh : bool) :
  count_ok c ->
  count_ok {| hits := hits c + 1; visitors := visitors c + b2z fresh |}.
Proof. unfold count_ok. simpl. destruct fresh; simpl; lia. Qed.

(** X14.  In the result of readWindowStats the hits of the countries add
    up to the total, and so do the hits of the continents; in every country
    and continent the visitors are between 0 and the hits, whatever the
    global object held before the call. *)
Theorem geo_hits (rt : Runtime) (files : list (list LogEvent)) (g : Global) :
  let r := fst (readWindowStats rt files g) in
  sum_hits (res_byCountry r) = res_total r /\
  sum_hits (res_byContinent r) = res_total r /\
  Forall (fun kc => count_ok (snd kc)) (res_byCountry r) /\
  Forall (fun kc => count_ok (snd kc)) (res_byContinent r).
Proof.
  intros r. unfold r. rewrite readWindowStats_fst.
  cbn [assemble res_byCountry res_byContinent res_total].
  set (now := Date_now rt). rewrite window_total.
  destruct (measure_scan now (fun _ => True)
              (fun a => Forall (fun kc => count_ok (snd kc)) (byCountry a))
              (fun a => sum_hits (byCountry a)) (fun _ => 1))
    with (files := files) (di := 0%nat) (st := (init_acc (List.length files), g))
    as [HokC HsumC].
  { intros di a g0 e _ Ha. destruct (tally_byCountry now di a g0 e) as [fr ->].
    apply Forall_aset; [assumption|]. apply bumped_count_ok.
    now apply get_count_ok. }
  { intros di a g0 e _ Ha. destruct (tally_byCountry now di a g0 e) as [fr ->].
    rewrite sum_hits_aset. simpl. lia. }
  { intros; exact I. }
  { constructor. }
  destruct (measure_scan now (fun _ => True)
              (fun a => Forall (fun kc => count_ok (snd kc)) (byContinent a))
              (fun a => sum_hits (byContinent a)) (fun _ => 1))
    with (files := files) (di := 0%nat) (st := (init_acc (List.length files), g))
    as [HokT HsumT].
  { intros di a g0 e _ Ha. destruct (tally_byContinent now di a g0 e) as [fr ->].
    apply Forall_aset; [assumption|]. apply bumped_count_ok.
    now apply get_count_ok. }
  { intros di a g0 e _ Ha. destruct (tally_byContinent now di a g0 e) as [fr ->].
    rewrite sum_hits_aset. simpl. lia. }
  { intros; exact I. }
  { constructor. }
  rewrite HsumC, HsumT. cbn [fst init_acc byCountry byContinent].
  rewrite sum_ones. repeat split; assumption.
Qed.

Lemma set_has_In (x : string) (s : list string) : set_has x s = true <-> In x s.
Proof.
  unfold set_has. rewrite existsb_exists. split.
  - intros [y [Hy E]]. apply String.eqb_eq in E. now subst.
  - intros H. exists x. split; [assumption | apply String.eqb_refl].
Qed.

Lemma set_add_In (x y : string) (s : list string) :
  In y (set_add x s) <-> y = x \/ In y s.
Proof.
  unfold set_add. destruct (set_has x s) eqn:E.
  - apply set_has_In in E. split; [auto|]. intros [-> | H]; assumption.
  - rewrite in_app_iff. simpl. intuition.
Qed.

Lemma set_add_NoDup (x : string) (s : list string) :
  NoDup s -> NoDup (set_add x s).
Proof.
  intros H. unfold set_add. destruct (set_has x s) eqn:E; [assumption|].
  apply NoDup_app; [assumption | repeat constructor; simpl; tauto |].
  intros y Hy [<- | []]. apply set_has_In in Hy. congruence.
Qed.

Lemma tally_globalUniques (now : Z) (di : nat) (a : Acc) (g : Global) (e : LogEvent) :
  globalUniques (fst (tally now di (a, g) e))
  = if nonempty (e_anon e) then set_add (e_anon e) (globalUniques a)
    else globalUniques a.
Proof. open_tally. reflexivity. Qed.

Lemma uniques_fold (es : list LogEvent) (s : list string) :
  NoDup s ->
  NoDup (fold_left (fun x e => if nonempty (e_anon e) then set_add (e_anon e) x else x)
           es s) /\
  forall y, In y (fold_left (fun x e => if nonempty (e_anon e)
                                        then set_add (e_anon e) x else x) es s)
            <-> In y s \/ (y <> "" /\ exists e, In e es /\ e_anon e = y).
Proof.
  revert s. induction es as [|e es IH]; intros s Hs.
  - simpl. split; [assumption|]. intros y. split; [auto|].
    intros [H | [_ [e [[] _]]]]. assumption.
  - cbn [fold_left].
    destruct (nonempty (e_anon e)) eqn:E; unfold nonempty in E;
      destruct (e_anon e =? "")%string eqn:E'; try discriminate E; clear E;
      rename E' into E.
    2: { apply String.eqb_eq in E. destruct (IH s Hs) as [Hn Hin].
      split; [assumption|]. intros y. rewrite Hin. split.
      * intros [H | [Hy [e' [He' Ha]]]]; [auto|].
        right. split; [assumption|]. exists e'. split; [now right | assumption].
      * intros [H | [Hy [e' [[<- | He'] Ha]]]]; [auto | congruence |].
        right. split; [assumption|]. now exists e'. }
    { apply String.eqb_neq in E.
      destruct (IH (set_add (e_anon e) s) (set_add_NoDup _ _ Hs)) as [Hn Hin].
      split; [assumption|]. intros y. rewrite Hin, set_add_In. split.
      * intros [[-> | H] | [Hy [e' [He' Ha]]]].
        -- right. split; [assumption|]. exists e. split; [now left | reflexivity].
        -- now left.
        -- right. split; [assumption|]. exists e'. split; [now right | assumption].
      * intros [H | [Hy [e' [[<- | He'] Ha]]]].
        -- left. now right.
        -- left. left. now symmetry.
        -- right. split; [assumption|]. now exists e'. }
Qed.

Lemma window_uniques (now : Z) (files : list (list LogEvent)) (g : Global) :
  let u := globalUniques
             (fst (scan_days now 0 files (init_acc (List.length files), g))) in
  NoDup u /\
  forall y, In y u <-> y <> "" /\ exists e, In e (List.concat files) /\ e_anon e = y.
Proof.
  intros u. unfold u.
  rewrite (project_scan now (list string) globalUniques
             (fun e x => if nonempty (e_anon e) then set_add (e_anon e) x else x)
             (tally_globalUniques now)).
  cbn [fst init_acc globalUniques].
  destruct (uniques_fold (List.concat files) [] (NoDup_nil _)) as [Hn Hin].
  split; [assumption|]. intros y. rewrite Hin. simpl. tauto.
Qed.

(** X15.  The unique-visitor count of readWindowStats is the number of
    different non-empty anon ids among the events read: it is at most the
    total, it does not depend on the global object, and it does not decrease
    when the window is widened to files that hold every event of the
    narrower one. *)
Theorem uniques_of_window (rt : Runtime) (files files' : list (list LogEvent))
  (g g' : Global) :
  let r := fst (readWindowStats rt files g) in
  0 <= res_uniques r <= res_total r /\
  res_uniques r = res_uniques (fst (readWindowStats rt files g')) /\
  (incl (List.concat files) (List.concat files') ->
   res_uniques r <= res_uniques (fst (readWindowStats rt files' g'))).
Proof.
  intros r. unfold r. rewrite !readWindowStats_fst.
  cbn [assemble res_uniques res_total]. set (now := Date_now rt).
  rewrite window_total.
  destruct (window_uniques now files g) as [Hn Hin].
  destruct (window_uniques now files g') as [Hn1 Hin1].
  destruct (window_uniques now files' g') as [Hn' Hin'].
  cbv zeta in *. unfold Zlen. split; [|split].
  - split; [lia|]. apply inj_le.
    rewrite <- (length_map e_anon (List.concat files)).
    apply NoDup_incl_length; [assumption|].
    intros y Hy. apply Hin in Hy. destruct Hy as [_ [e [He <-]]].
    now apply in_map.
  - f_equal. apply Nat.le_antisymm; apply NoDup_incl_length; try assumption;
      intros y Hy; [apply Hin1, Hin | apply Hin, Hin1]; exact Hy.
  - intros Hincl. apply inj_le. apply NoDup_incl_length; [assumption|].
    intros y Hy. apply Hin'. apply Hin in Hy.
    destruct Hy as [Hne [e [He Ha]]]. split; [assumption|].
    exists e. split; [now apply Hincl | assumption].
Qed.

Lemma uniques_of_window_witness :
  res_uniques (fst (readWindowStats sample_rt one_visit_files []))
  <= res_uniques (fst (readWindowStats sample_rt
                         (one_visit_files ++ sample_files) [])).
Proof.
  assert (Hincl : incl (List.concat one_visit_files)
                    (List.concat (one_visit_files ++ sample_files))).
  { intros e He. simpl in *. tauto. }
  exact (proj2 (proj2 (uniques_of_window sample_rt one_visit_files
                         (one_visit_files ++ sample_files) [] [])) Hincl).
Defined.

(** ** More of dbReadStats *)





Lemma count_where_mono (p q : Row -> bool) (rows : list Row) :
  (forall x, p x = true -> q x = true) ->
  count_where p rows <= count_where q rows.
Proof. intros H. unfold count_where. now apply Zlen_filter_mono. Qed.





(** X18.  dbReadStats uses the dates it is given only when both are
    present and not empty, both parse, and from is not after to; an
    unparsable date, a reversed pair or a missing bound silently gives the
    range from the epoch to the time of the query. *)
Theorem resolve_range_cases (rt : Runtime) (fromS toS : option string) :
  (resolve_range rt fromS toS = (0, Date_now rt) \/
   exists f t ft tt_,
     fromS = Some f /\ toS = Some t /\
     Date_parse rt (f ++ "T00:00:00Z") = Some ft /\
     Date_parse rt (t ++ "T23:59:59Z") = Some tt_ /\
     ft <= tt_ /\ resolve_range rt fromS toS = (ft, tt_)) /\
  (forall f t, Date_parse rt (f ++ "T00:00:00Z") = None ->
               resolve_range rt (Some f) (Some t) = (0, Date_now rt)) /\
  (forall f t, Date_parse rt (t ++ "T23:59:59Z") = None ->
               resolve_range rt (Some f) (Some t) = (0, Date_now rt)) /\
  (forall f t ft tt_,
      Date_parse rt (f ++ "T00:00:00Z") = Some ft ->
      Date_parse rt (t ++ "T23:59:59Z") = Some tt_ ->
      tt_ < ft ->
      resolve_range rt (Some f) (Some t) = (0, Date_now rt)) /\
  (forall t, resolve_range rt None t = (0, Date_now rt)) /\
  (forall f, resolve_range rt f None = (0, Date_now rt)) /\
  (forall t, resolve_range rt (Some "") t = (0, Date_now rt)) /\
  (forall f, resolve_range rt f (Some "") = (0, Date_now rt)).
Proof.
  split; [|split; [|split; [|split; [|split; [|split; [|split]]]]]].
  - unfold resolve_range.
    destruct fromS as [f|], toS as [t|]; auto.
    destruct (andb (nonempty f) (nonempty t)); auto.
    destruct (Date_parse rt (f ++ "T00:00:00Z")) as [ft|] eqn:Pf; auto.
    destruct (Date_parse rt (t ++ "T23:59:59Z")) as [tt_|] eqn:Pt; auto.
    destruct (Z.leb_spec ft tt_); auto.
    right. exists f, t, ft, tt_. repeat split; auto.
  - intros f t Pf. unfold resolve_range. rewrite Pf.
    now destruct (andb (nonempty f) (nonempty t)).
  - intros f t Pt. unfold resolve_range. rewrite Pt.
    destruct (andb (nonempty f) (nonempty t)); [|reflexivity].
    now destruct (Date_parse rt (f ++ "T00:00:00Z")).
  - intros f t ft tt_ Pf Pt Hlt. unfold resolve_range. rewrite Pf, Pt.
    destruct (andb (nonempty f) (nonempty t)); [|reflexivity].
    destruct (Z.leb_spec ft tt_); [lia | reflexivity].
  - intros t. unfold resolve_range. now destruct t.
  - intros f. unfold resolve_range. now destruct f.
  - intros t. unfold resolve_range. destruct t; reflexivity.
  - intros f. unfold resolve_range. destruct f as [f|]; [|reflexivity].
    replace (nonempty "") with false by reflexivity.
    now rewrite andb_false_r.
Qed.

Lemma resolve_range_cases_witness :
  resolve_range sample_db_rt (Some "2023-11-14") (Some "2023-11-01")
  = (0, Date_now sample_db_rt) /\
  resolve_range sample_db_rt (Some "14/11/2023") (Some "2023-11-15")
  = (0, Date_now sample_db_rt).
Proof.
  destruct (resolve_range_cases sample_db_rt None None)
    as [_ [Hf [_ [Hrev _]]]].
  split.
  - apply (Hrev "2023-11-14" "2023-11-01" 1699920000000 1698883199000);
      [reflexivity | reflexivity | lia].
  - apply Hf. reflexivity.
Defined.

Lemma filter_none {A : Type} (p : A -> bool) (l : list A) :
  (forall x, In x l -> p x = false) -> filter p l = [].
Proof.
  induction l as [|x l IH]; intros H; [reflexivity|].
  simpl. rewrite (H x (or_introl eq_refl)). apply IH.
  intros y Hy. apply H. now right.
Qed.




(** ** Timestamps on their way to the store *)


(** ** Grouped queries *)

Section Groups.
Context {K : Type} (keq : K -> K -> bool).
Hypothesis keq_spec : forall x y, keq x y = true <-> x = y.

Lemma existsb_keq (x : K) (l : list K) : existsb (keq x) l = true <-> In x l.
Proof.
  rewrite existsb_exists. split.
  - intros [y [Hy E]]. apply keq_spec in E. now subst.
  - intros H. exists x. split; [assumption|]. now apply keq_spec.
Qed.

Lemma group_keys_In (l seen : list K) (x : K) :
  In x (group_keys keq seen l) <-> In x l /\ ~ In x seen.
Proof.
  revert seen. induction l as [|y r IH]; intros seen; simpl.
  - tauto.
  - destruct (existsb (keq y) seen) eqn:E.
    + apply existsb_keq in E. rewrite IH. split.
      * intros [H1 H2]. auto.
      * intros [[-> | H1] H2]; [contradiction | auto].
    + assert (Hy : ~ In y seen).
      { intros Hy. apply existsb_keq in Hy. congruence. }
      simpl. rewrite IH. simpl. split.
      * intros [-> | [H1 H2]]; auto.
      * intros [[-> | H1] H2]; [now left|].
        destruct (keq y x) eqn:Eyx.
        -- apply keq_spec in Eyx. now left.
        -- right. split; [assumption|]. intros [-> | H3]; [|contradiction].
           assert (keq x x = true) by now apply keq_spec. congruence.
Qed.

Lemma group_keys_NoDup (l seen : list K) : NoDup (group_keys keq seen l).
Proof.
  revert seen. induction l as [|y r IH]; intros seen; simpl.
  - constructor.
  - destruct (existsb (keq y) seen); [apply IH|].
    constructor; [|apply IH].
    intros H. apply group_keys_In in H. destruct H as [_ H]. apply H. now left.
Qed.

Lemma sum_pick (q : K -> bool) (a : K) (ks : list K) :
  NoDup ks -> In a ks ->
  sum_Z (map (fun k => if q k then b2z (keq a k) else 0) ks) = b2z (q a).
Proof.
  intros Hnd. induction Hnd as [|k ks Hk Hnd IH]; intros Ha; [destruct Ha|].
  simpl. destruct (keq a k) eqn:E.
  - apply keq_spec in E. subst k.
    assert (Hz : sum_Z (map (fun k => if q k then b2z (keq a k) else 0) ks) = 0).
    { clear IH Ha Hnd. induction ks as [|k ks IH]; simpl; [reflexivity|].
      rewrite IH by (intros H; apply Hk; now right).
      destruct (keq a k) eqn:E.
      - apply keq_spec in E. subst k. exfalso. apply Hk. now left.
      - destruct (q k); reflexivity. }
    rewrite Hz. destruct (q a); reflexivity.
  - destruct Ha as [-> | Ha].
    + assert (keq a a = true) by now apply keq_spec. congruence.
    + rewrite (IH Ha). destruct (q k); simpl; lia.
Qed.

Lemma group_partition {R : Type} (key : R -> K) (q : K -> bool)
  (ks : list K) (w : list R) :
  NoDup ks -> (forall r, In r w -> In (key r) ks) ->
  sum_Z (map (fun k => if q k then Zlen (filter (fun r => keq (key r) k) w)
                       else 0) ks)
  = Zlen (filter (fun r => q (key r)) w).
Proof.
  intros Hnd. induction w as [|r w IH]; intros Hin.
  - simpl. clear. induction ks as [|k ks IHk]; simpl; [reflexivity|].
    rewrite IHk. destruct (q k); reflexivity.
  - assert (E : map (fun k => if q k
                              then Zlen (filter (fun r0 => keq (key r0) k) (r :: w))
                              else 0) ks
                = map (fun k => (if q k then b2z (keq (key r) k) else 0)
                                + (if q k
                                   then Zlen (filter (fun r0 => keq (key r0) k) w)
                                   else 0)) ks).
    { apply map_ext. intros k. simpl.
      destruct (q k); [|reflexivity].
      destruct (keq (key r) k); [now rewrite Zlen_cons | reflexivity]. }
    rewrite E. clear E.
    assert (S : forall (f g : K -> Z) l,
               sum_Z (map (fun k => f k + g k) l)
               = sum_Z (map f l) + sum_Z (map g l)).
    { intros f g l. induction l as [|k l IHl]; simpl; [reflexivity|].
      rewrite IHl. lia. }
    rewrite S, IH by (intros r0 H0; apply Hin; now right).
    rewrite sum_pick by (auto; apply Hin; now left).
    simpl. destruct (q (key r)); [rewrite Zlen_cons|]; simpl; lia.
Qed.
End Groups.

Lemma String_eqb_spec' (x y : string) : (x =? y)%string = true <-> x = y.
Proof. apply String.eqb_eq. Qed.

Lemma Z_eqb_spec' (x y : Z) : (x =? y) = true <-> x = y.
Proof. apply Z.eqb_eq. Qed.

(** ** Sorting by descending count *)

Lemma insert_desc_perm {A : Type} (key : A -> Z) (x : A) (l : list A) :
  Permutation (insert_desc key x l) (x :: l).
Proof.
  induction l as [|y l IH]; simpl; [apply Permutation_refl|].
  destruct (key y <=? key x); [apply Permutation_refl|].
  apply perm_trans with (y :: x :: l); [now apply perm_skip | apply perm_swap].
Qed.

Lemma sort_desc_perm {A : Type} (key : A -> Z) (l : list A) :
  Permutation (sort_desc key l) l.
Proof.
  unfold sort_desc. induction l as [|x l IH]; simpl; [apply Permutation_refl|].
  apply perm_trans with (x :: fold_right (insert_desc key) [] l);
    [apply insert_desc_perm | now apply perm_skip].
Qed.

Lemma sum_Z_perm (l l' : list Z) : Permutation l l' -> sum_Z l = sum_Z l'.
Proof. intros H. induction H; simpl; lia. Qed.

Lemma insert_desc_sorted {A : Type} (key : A -> Z) (x : A) (l : list A) :
  StronglySorted (fun a b => key b <= key a) l ->
  StronglySorted (fun a b => key b <= key a) (insert_desc key x l).
Proof.
  intros H. induction H as [|y l Hs IH Hy]; simpl.
  - repeat constructor.
  - destruct (Z.leb_spec (key y) (key x)).
    + constructor; [now constructor|].
      constructor; [assumption|].
      eapply Forall_impl; [|exact Hy]. simpl. intros; lia.
    + constructor; [assumption|].
      apply (Permutation_Forall (Permutation_sym (insert_desc_perm key x l))).
      constructor; [lia | assumption].
Qed.

Lemma sort_desc_sorted {A : Type} (key : A -> Z) (l : list A) :
  StronglySorted (fun a b => key b <= key a) (sort_desc key l).
Proof.
  unfold sort_desc. induction l as [|x l IH]; simpl; [constructor|].
  now apply insert_desc_sorted.
Qed.

Lemma sorted_firstn {A : Type} (R : A -> A -> Prop) (n : nat) (l : list A) :
  StronglySorted R l -> StronglySorted R (firstn n l).
Proof.
  intros H. revert n. induction H as [|x l Hs IH Hx]; intros [|n]; simpl;
    try constructor; auto.
  apply Forall_forall. intros y Hy. apply (proj1 (Forall_forall _ _) Hx).
  revert Hy. clear. revert n. induction l as [|z l IH]; intros [|n]; simpl; try tauto.
  intros [-> | H]; [now left | right; eauto].
Qed.

Lemma sorted_cut {A : Type} (R : A -> A -> Prop) (n : nat) (l : list A) :
  StronglySorted R l ->
  forall x y, In x (firstn n l) -> In y (skipn n l) -> R x y.
Proof.
  intros H. revert n. induction H as [|z l Hs IH Hz]; intros [|n] x y; simpl;
    try tauto.
  intros [-> | Hx] Hy.
  - apply (proj1 (Forall_forall _ _) Hz). revert Hy. clear.
    revert n. induction l as [|z l IH]; intros [|n]; simpl; try tauto.
    intros H. right. eauto.
  - eauto.
Qed.

Lemma sorted_map {A B : Type} (R : B -> B -> Prop) (f : A -> B) (l : list A) :
  StronglySorted (fun a b => R (f a) (f b)) l -> StronglySorted R (map f l).
Proof.
  intros H. induction H as [|x l Hs IH Hx]; simpl; constructor; auto.
  apply Forall_forall. intros y Hy. apply in_map_iff in Hy.
  destruct Hy as [z [<- Hz]]. exact (proj1 (Forall_forall _ _) Hx z Hz).
Qed.

Lemma firstn_In {A : Type} (n : nat) (l : list A) (x : A) :
  In x (firstn n l) -> In x l.
Proof.
  intros H. rewrite <- (firstn_skipn n l). apply in_or_app. now left.
Qed.

(** X21.  toTopRows keeps the [limit] entries with the largest counts: it
    returns as many rows as there are entries, up to the limit, by
    descending count; every row is an entry of the object; an entry left
    out has no larger count than any row; and each row's share times the
    denominator is its count, or the share is 0 when the denominator is. *)
Theorem toTopRows_top (obj : list (string * Z)) (denom : Z) (limit : nat) :
  let rows := toTopRows obj denom limit in
  List.length rows = Nat.min limit (List.length obj) /\
  StronglySorted (fun a b => row_count b <= row_count a) rows /\
  (forall row, In row rows -> In (row_key row, row_count row) obj) /\
  (forall kc, In kc obj ->
     (exists row, In row rows /\ (row_key row, row_count row) = kc) \/
     (forall row, In row rows -> snd kc <= row_count row)) /\
  (forall row, In row rows ->
     if denom =? 0 then row_pct row = 0%Q
     else (row_pct row * inject_Z denom == inject_Z (row_count row))%Q).
Proof.
  cbv zeta. unfold toTopRows.
  pose proof (sort_desc_perm snd obj) as Hp.
  pose proof (sort_desc_sorted snd obj) as Hs.
  set (sorted := sort_desc snd obj) in *.
  split; [|split; [|split; [|split]]].
  - rewrite length_map, length_firstn. now rewrite (Permutation_length Hp).
  - apply sorted_map. simpl. now apply sorted_firstn.
  - intros row H. apply in_map_iff in H. destruct H as [[k c] [<- H]]. simpl.
    apply (Permutation_in _ Hp). now apply firstn_In in H.
  - intros kc H. apply (Permutation_in _ (Permutation_sym Hp)) in H.
    rewrite <- (firstn_skipn limit sorted) in H. apply in_app_or in H.
    destruct H as [H | H].
    + left. eexists. split; [apply in_map; exact H|]. now destruct kc.
    + right. intros row Hr. apply in_map_iff in Hr. destruct Hr as [x [<- Hx]].
      simpl. exact (sorted_cut _ limit sorted Hs x kc Hx H).
  - intros row H. apply in_map_iff in H. destruct H as [[k c] [<- H]]. simpl.
    destruct (Z.eqb_spec denom 0) as [E | E]; [reflexivity|].
    unfold ratio. rewrite Qmult_comm. apply Qmult_div_r.
    unfold Qeq. simpl. lia.
Qed.

(** ** Continents *)

Lemma aget_In {V : Type} (k : string) (v : V) (l : list (string * V)) :
  aget String.eqb k l = Some v -> In (k, v) l.
Proof.
  induction l as [|[k' v'] l IH]; simpl; [discriminate|].
  destruct (String.eqb_spec k' k) as [-> | _].
  - intros H. inversion H. now left.
  - intros H. right. now apply IH.
Qed.

Lemma C_TABLE_values (k v : string) :
  In (k, v) C_TABLE -> In v ["NA"; "SA"; "EU"; "AS"; "OC"; "AF"].
Proof.
  intros H. unfold C_TABLE in H.
  repeat (destruct H as [H | H]; [inversion H; subst; simpl; tauto|]).
  destruct H.
Qed.

Lemma upper_lower_ascii (c : ascii) : upper_ascii (lower_ascii c) = upper_ascii c.
Proof. destruct c as [[] [] [] [] [] [] [] []]; reflexivity. Qed.

Lemma toUpperCase_toLowerCase (s : string) :
  toUpperCase (toLowerCase s) = toUpperCase s.
Proof.
  unfold toUpperCase, toLowerCase. induction s as [|c s IH]; simpl; [reflexivity|].
  now rewrite upper_lower_ascii, IH.
Qed.

Lemma continentOf_In (c : option string) : In (continentOf c) CONTINENT_CODES.
Proof.
  unfold continentOf, CONTINENT_CODES.
  destruct c as [s|]; [|simpl; tauto].
  destruct (s =? "")%string; [simpl; tauto|].
  destruct (aget String.eqb (toUpperCase s) C_TABLE) as [k|] eqn:E; [|simpl; tauto].
  apply aget_In, C_TABLE_values in E. simpl in E.
  decompose [or] E; subst; simpl; tauto.
Qed.

(** X22.  continentOf of db.js answers one of the six continent codes or
    Unknown, Unknown for a missing or empty country, and ignores the case of
    its argument.  It classifies the country of a logged event as
    readWindowStats does, which calls the unknown bucket UN. *)
Theorem continentOf_codes :
  continentOf None = "Unknown" /\
  continentOf (Some "") = "Unknown" /\
  (forall c, In (continentOf c) CONTINENT_CODES) /\
  (forall s, continentOf (Some (toUpperCase s)) = continentOf (Some s) /\
             continentOf (Some (toLowerCase s)) = continentOf (Some s)) /\
  (forall e : LogEvent,
     (event_continent e = "UN" /\
      continentOf (Some (event_country e)) = "Unknown") \/
     (event_continent e <> "UN" /\
      continentOf (Some (event_country e)) = event_continent e)).
Proof.
  split; [reflexivity|]. split; [reflexivity|]. split; [apply continentOf_In|].
  split.
  - intros s. unfold continentOf.
    rewrite toUpperCase_idem, toUpperCase_toLowerCase.
    destruct s as [|c s]; [now split | now split].
  - intros e. unfold event_continent, continentOf.
    assert (Hne : event_country e <> "").
    { unfold event_country. apply toUpperCase_nonempty.
      unfold or_str. destruct (String.eqb_spec (e_country e) "");
        [discriminate | assumption]. }
    apply String.eqb_neq in Hne. rewrite Hne.
    assert (Hup : toUpperCase (event_country e) = event_country e).
    { unfold event_country. apply toUpperCase_idem. }
    rewrite Hup. change CONTINENT with C_TABLE.
    destruct (aget String.eqb (event_country e) C_TABLE) as [k|] eqn:E;
      [|now left].
    right. apply aget_In, C_TABLE_values in E. simpl in E.
    decompose [or] E; subst; simpl; (split; [discriminate | reflexivity])
      || contradiction.
Qed.

Lemma sum_visitors_aset (k : string) (c : GeoCount) (o : list (string * GeoCount)) :
  sum_visitors (aset String.eqb k c o)
  = sum_visitors o + visitors c - visitors (get_count k o).
Proof.
  unfold sum_visitors, get_count. induction o as [|[k' v] o IH]; simpl; [lia|].
  destruct (k' =? k)%string; simpl; [lia|]. rewrite IH. lia.
Qed.

Lemma aset_keys_In {V : Type} (k k' : string) (v : V) (o : list (string * V)) :
  In k' (map fst (aset String.eqb k v o)) <-> k' = k \/ In k' (map fst o).
Proof.
  induction o as [|[k0 v0] o IH]; simpl.
  - intuition.
  - destruct (String.eqb_spec k0 k) as [-> | Hne]; simpl.
    + intuition.
    + rewrite IH. intuition.
Qed.

Lemma aset_keys_NoDup {V : Type} (k : string) (v : V) (o : list (string * V)) :
  NoDup (map fst o) -> NoDup (map fst (aset String.eqb k v o)).
Proof.
  induction o as [|[k0 v0] o IH]; simpl; intros H.
  - repeat constructor. intros [].
  - inversion H as [|? ? Hk Hnd]; subst.
    destruct (String.eqb_spec k0 k) as [-> | Hne]; simpl.
    + now constructor.
    + constructor; [|now apply IH].
      intros Hin. apply aset_keys_In in Hin. destruct Hin as [-> | Hin]; auto.
Qed.

Lemma rollup_fold (bc acc : list (string * GeoCount)) :
  let step := fun byCont (kc : string * GeoCount) =>
       let cont := continentOf (if (fst kc =? "Unknown")%string then None
                                else Some (fst kc)) in
       let old := get_count cont byCont in
       aset String.eqb cont
            {| hits := hits old + hits (snd kc);
               visitors := visitors old + visitors (snd kc) |}
            byCont in
  let out := fold_left step bc acc in
  sum_hits out = sum_hits acc + sum_hits bc /\
  sum_visitors out = sum_visitors acc + sum_visitors bc /\
  (forall k, In k (map fst out) ->
             In k (map fst acc) \/ In k CONTINENT_CODES) /\
  (NoDup (map fst acc) -> NoDup (map fst out)).
Proof.
  cbv zeta. revert acc. induction bc as [|kc bc IH]; intros acc.
  - simpl. unfold sum_hits, sum_visitors. simpl. repeat split; auto; lia.
  - cbn [fold_left].
    match goal with |- context [fold_left ?f bc ?a] =>
      destruct (IH a) as [H1 [H2 [H3 H4]]] end.
    rewrite H1, H2, sum_hits_aset, sum_visitors_aset.
    split; [|split; [|split]].
    + unfold sum_hits, sum_Z. cbn [map fold_right hits]. lia.
    + unfold sum_visitors, sum_Z. cbn [map fold_right visitors]. lia.
    + intros k Hk. destruct (H3 k Hk) as [Hin | Hin]; [|now right].
      apply aset_keys_In in Hin. destruct Hin as [-> | Hin]; [|now left].
      right. apply continentOf_In.
    + intros Hnd. apply H4. now apply aset_keys_NoDup.
Qed.

Lemma sum_hits_filter (p : string * GeoCount -> bool) (l : list (string * GeoCount)) :
  sum_hits (filter p l)
  = sum_Z (map (fun kc => if p kc then hits (snd kc) else 0) l).
Proof.
  unfold sum_hits. induction l as [|x l IH]; simpl; [reflexivity|].
  destruct (p x); simpl; rewrite IH; reflexivity.
Qed.

Lemma country_keys (w : list Row) :
  let ks := group_keys String.eqb [] (map row_country w) in
  NoDup ks /\ forall r, In r w -> In (row_country r) ks.
Proof.
  cbv zeta. split; [apply (group_keys_NoDup _ String_eqb_spec')|].
  intros r Hr. apply (group_keys_In _ String_eqb_spec').
  split; [now apply in_map | intros []].
Qed.

Lemma country_hits (q : string -> bool) (range : Z * Z) (rows : list Row) :
  sum_hits (filter (fun kc => q (fst kc)) (country_rows range rows))
  = count_where (fun r => q (row_country r)) (window range rows).
Proof.
  unfold country_rows, count_where, window. cbv zeta.
  set (w := filter (in_range_t (fst range) (snd range)) rows).
  destruct (country_keys w) as [Hnd Hcov].
  rewrite sum_hits_filter.
  rewrite (sum_Z_perm _ _ (Permutation_map _ (sort_desc_perm _ _))).
  rewrite map_map. cbn [fst snd hits].
  apply (group_partition _ String_eqb_spec' row_country q _ w Hnd Hcov).
Qed.

Lemma filter_true {A : Type} (l : list A) : filter (fun _ => true) l = l.
Proof. induction l as [|x l IH]; simpl; [reflexivity | now rewrite IH]. Qed.

(** X23.  The continents of dbReadStats are built from the countries of the
    window: their hits add up to the rows of the window (less those whose
    country is the string __proto__, which leaves no entry in byCountry),
    their visitors to the visitors of the countries, and every key is a
    continent code or Unknown, each once.  The hits of the countries add up
    to the rows of the window. *)
Theorem continent_rollup (range : Z * Z) (rows : list Row) :
  let byCountry_ := byCountry_entries range rows in
  let byCont := rollup byCountry_ in
  sum_hits byCont
  = count_where (fun r => negb (row_country r =? "__proto__")%string)
                (window range rows) /\
  sum_visitors byCont = sum_visitors byCountry_ /\
  (forall k, In k (map fst byCont) -> In k CONTINENT_CODES) /\
  NoDup (map fst byCont) /\
  sum_hits (country_rows range rows) = Zlen (window range rows).
Proof.
  pose proof (rollup_fold (byCountry_entries range rows) []) as H.
  unfold rollup. cbv zeta in *. destruct H as [H1 [H2 [H3 H4]]].
  split; [|split; [|split; [|split]]].
  - rewrite H1. unfold byCountry_entries.
    rewrite (country_hits (fun k => negb (k =? "__proto__")%string)).
    reflexivity.
  - rewrite H2. reflexivity.
  - intros k Hk. destruct (H3 k Hk) as [[] | H]. exact H.
  - apply H4. constructor.
  - rewrite <- (filter_true (country_rows range rows)).
    rewrite (country_hits (fun _ => true)).
    unfold count_where. f_equal. apply filter_true.
Qed.

(** ** Arrays by hour and by day of the week *)

Lemma to_int32_small (z : Z) : - 2 ^ 31 <= z < 2 ^ 31 -> to_int32 z = z.
Proof.
  unfold to_int32. change (2 ^ 31) with 2147483648.
  change (2 ^ 32) with 4294967296. intros H. rewrite Z.mod_small; lia.
Qed.

Lemma store_length {A : Type} (a : list A) (n : nat) (y : A) :
  (n < List.length a)%nat ->
  List.length (firstn n a ++ y :: skipn (S n) a)%list = List.length a.
Proof.
  revert n. induction a as [|x a IH]; intros [|n] H; simpl in *; try lia.
  rewrite IH; lia.
Qed.

Lemma store_nth {A : Type} (a : list A) (n j : nat) (y : A) :
  (n < List.length a)%nat ->
  nth_error (firstn n a ++ y :: skipn (S n) a)%list j
  = if Nat.eqb j n then Some y else nth_error a j.
Proof.
  revert n j. induction a as [|x a IH]; intros [|n] [|j] H; simpl in *;
    try lia; try reflexivity.
  apply IH. lia.
Qed.

Lemma arr_of_graph (n : nat) (f : Z -> Z) (ks : list Z) :
  Z.of_nat n < 2 ^ 31 ->
  (forall k, In k ks -> 0 <= k < Z.of_nat n) ->
  let a := arr_of n (map (fun k => (k, f k)) ks) in
  List.length a = n /\
  forall j, (j < n)%nat ->
    nth_error a j
    = Some (Some (if existsb (Z.eqb (Z.of_nat j)) ks then f (Z.of_nat j) else 0)).
Proof.
  intros Hn. cbv zeta. induction ks as [|k ks IH] using rev_ind; intros Hk.
  - unfold arr_of. simpl. split; [apply repeat_length|].
    intros j Hj. now apply nth_error_repeat.
  - destruct IH as [IHl IHn].
    { intros k0 H0. apply Hk. apply in_or_app. now left. }
    assert (Hkr : 0 <= k < Z.of_nat n).
    { apply Hk. apply in_or_app. right. now left. }
    unfold arr_of in *. rewrite map_app, fold_left_app. cbn [map fold_left fst snd].
    set (a := fold_left _ (map _ ks) _) in *.
    rewrite to_int32_small by (change (2 ^ 31) with 2147483648 in *; lia).
    unfold js_store. destruct (Z.ltb_spec k 0) as [|_]; [lia|].
    assert (Hlt : (Z.to_nat k < List.length a)%nat) by lia.
    rewrite (proj2 (Nat.ltb_lt _ _) Hlt).
    split; [now rewrite store_length|].
    intros j Hj. rewrite store_nth by assumption. rewrite existsb_app.
    cbn [existsb]. rewrite orb_false_r.
    destruct (Nat.eqb_spec j (Z.to_nat k)) as [-> | Hne].
    + rewrite Z2Nat.id by lia. rewrite Z.eqb_refl, orb_true_r. reflexivity.
    + destruct (Z.eqb_spec (Z.of_nat j) k) as [E | _]; [lia|].
      rewrite orb_false_r. now apply IHn.
Qed.

Lemma list_by_index {A : Type} (g : nat -> A) (a : list A) (s : nat) :
  (forall j, (j < List.length a)%nat -> nth_error a j = Some (g (s + j)%nat)) ->
  a = map g (seq s (List.length a)).
Proof.
  revert s. induction a as [|x a IH]; intros s H; [reflexivity|].
  simpl. f_equal.
  - specialize (H 0%nat). simpl in H. rewrite Nat.add_0_r in H.
    assert (E : Some x = Some (g s)) by (apply H; lia). now inversion E.
  - apply IH. intros j Hj. specialize (H (S j)). simpl in H.
    rewrite Nat.add_succ_r in H. apply H. lia.
Qed.

Lemma upto_NoDup (n : nat) : NoDup (upto n).
Proof.
  unfold upto. apply NoDup_map_NoDup_ForallPairs; [|apply seq_NoDup].
  intros x y _ _ H. lia.
Qed.

Lemma upto_In (n : nat) (z : Z) : 0 <= z < Z.of_nat n -> In z (upto n).
Proof.
  intros H. unfold upto. apply in_map_iff. exists (Z.to_nat z).
  split; [lia|]. apply in_seq. lia.
Qed.

Lemma arr_of_counts (n : nat) (key : Row -> Z) (range : Z * Z) (rows : list Row) :
  Z.of_nat n < 2 ^ 31 ->
  (forall r, 0 <= key r < Z.of_nat n) ->
  arr_of n (count_by key range rows)
  = map (fun h => Some (count_where (fun r => key r =? h) (window range rows)))
        (upto n) /\
  sum_opt (arr_of n (count_by key range rows)) = Zlen (window range rows).
Proof.
  intros Hn Hkey. unfold count_by, count_where, window. cbv zeta.
  set (w := filter (in_range_t (fst range) (snd range)) rows).
  set (f := fun k => Zlen (filter (fun r => key r =? k) w)).
  set (ks := group_keys Z.eqb [] (map key w)).
  assert (Hks : forall k, In k ks -> 0 <= k < Z.of_nat n).
  { intros k Hk. apply (group_keys_In _ Z_eqb_spec') in Hk.
    destruct Hk as [Hk _]. apply in_map_iff in Hk.
    destruct Hk as [r [<- _]]. apply Hkey. }
  destruct (arr_of_graph n f ks Hn Hks) as [Hl Hj].
  assert (E : arr_of n (map (fun k => (k, f k)) ks)
              = map (fun h => Some (f h)) (upto n)).
  { unfold upto. rewrite map_map.
    rewrite (list_by_index (fun j => Some (f (Z.of_nat j))) _ 0%nat).
    - now rewrite Hl.
    - intros j Hlt. rewrite Hl in Hlt. rewrite (Hj j Hlt). simpl.
      destruct (existsb (Z.eqb (Z.of_nat j)) ks) eqn:Ex; [reflexivity|].
      do 2 f_equal. unfold f. rewrite filter_none; [reflexivity|].
      intros r Hr. apply Z.eqb_neq. intros Heq.
      assert (Hin : In (Z.of_nat j) ks).
      { apply (group_keys_In _ Z_eqb_spec'). split; [|intros []].
        rewrite <- Heq. now apply in_map. }
      apply (existsb_keq _ Z_eqb_spec') in Hin. congruence. }
  split; [exact E|].
  change (sum_opt (arr_of n (map (fun k => (k, f k)) ks)) = Zlen w).
  rewrite E. unfold sum_opt. rewrite map_map.
  pose proof (group_partition Z.eqb Z_eqb_spec' key (fun _ => true) (upto n) w
                (upto_NoDup n) (fun r _ => upto_In n (key r) (Hkey r))) as P.
  cbv beta iota in P. rewrite filter_true in P. exact P.
Qed.

(** X24.  The hourly array of dbReadStats has 24 entries, the h-th being the
    number of rows of the range whose UTC hour is h, and the day-of-week array
    has 7, counted from Sunday; each adds up to the rows of the range. *)
Theorem hourly_from_rows (range : Z * Z) (rows : list Row) :
  arr24 (count_by row_hour range rows)
  = map (fun h => Some (count_where (fun r => row_hour r =? h) (window range rows)))
        (upto 24) /\
  arr7 (count_by row_dow range rows)
  = map (fun d => Some (count_where (fun r => row_dow r =? d) (window range rows)))
        (upto 7) /\
  sum_opt (arr24 (count_by row_hour range rows)) = Zlen (window range rows) /\
  sum_opt (arr7 (count_by row_dow range rows)) = Zlen (window range rows).
Proof.
  assert (H24 : forall r, 0 <= row_hour r < Z.of_nat 24).
  { intros r. unfold row_hour. apply Z.mod_pos_bound. reflexivity. }
  assert (H7 : forall r, 0 <= row_dow r < Z.of_nat 7).
  { intros r. unfold row_dow. apply Z.mod_pos_bound. reflexivity. }
  destruct (arr_of_counts 24 row_hour range rows eq_refl H24) as [A1 A2].
  destruct (arr_of_counts 7 row_dow range rows eq_refl H7) as [B1 B2].
  unfold arr24, arr7. auto.
Qed.
